(** * Rock-Paper-Scissors Plus: the AI judge, its deterministic fallback
      and the three-round match loop

    A shallow embedding of [src/main.py].  Python dictionaries with a fixed
    set of keys are records, [None] is [option]'s [None], the keyword table
    [move_map] is an association list in insertion order (the order in which
    Python iterates a dict literal), and Python's unbounded [int] is [Z].

    Python strings are sequences of code points; here a string is a
    [String.string] whose characters are read as the code points 0..255.
    On that range [str.lower] maps one character to one character, and
    [lower] below is exactly that map. *)

From Stdlib Require Import Bool List ZArith NArith Lia.
From Stdlib Require Import Strings.Ascii Strings.String.
From Stdlib Require Import Numbers.DecimalString.
Import ListNotations.

Local Open Scope string_scope.
Local Open Scope bool_scope.

(** ** Python string primitives *)

(** [str.lower] on one code point below 256: the ASCII capitals and the
    Latin-1 capitals U+00C0..U+00DE (the multiplication sign U+00D7 apart)
    move up by 32, everything else is unchanged. *)
Definition lower_char (c : ascii) : ascii :=
  let n := N_of_ascii c in
  if ((65 <=? n) && (n <=? 90))%N
     || ((192 <=? n) && (n <=? 222) && negb (n =? 215))%N
  then ascii_of_N (n + 32)
  else c.

Fixpoint lower (s : string) : string :=
  match s with
  | EmptyString => EmptyString
  | String c s' => String (lower_char c) (lower s')
  end.

(** [k in s] on strings: [k] occurs in [s] as a contiguous substring. *)
Fixpoint contains (k s : string) : bool :=
  prefix k s ||
  match s with
  | EmptyString => false
  | String _ s' => contains k s'
  end.

(** [a == b] where each side is a string or [None]. *)
Definition py_eq (a b : option string) : bool :=
  match a, b with
  | None, None => true
  | Some x, Some y => String.eqb x y
  | _, _ => false
  end.

(** Truth value of a string-or-[None]: [None] and the empty string are
    falsy. *)
Definition truthy (v : option string) : bool :=
  match v with
  | None => false
  | Some s => negb (String.eqb s "")
  end.

(** What an f-string interpolates for a string-or-[None]. *)
Definition py_str (v : option string) : string :=
  match v with
  | None => "None"
  | Some s => s
  end.

(** [d.get(key)] on a dict with string keys and values, for a key that is
    a string or [None]. *)
Fixpoint dict_get (d : list (string * string)) (key : option string)
  : option string :=
  match d with
  | [] => None
  | (k, v) :: d' => if py_eq (Some k) key then Some v else dict_get d' key
  end.

(** ** The decision record and the game state *)

Module IntentUnderstanding.
Record t := mk {
  move_understood : option string;
  reasoning : string
}.
End IntentUnderstanding.

Module Validation.
Record t := mk {
  status : string;
  reason : string
}.
End Validation.

Module GameLogic.
Record t := mk {
  player1_move : option string;
  player2_move : option string;
  round_winner : option string;
  round_explanation : option string
}.
End GameLogic.

Module BombsRemaining.
Record t := mk {
  player1 : string;
  player2 : string
}.
End BombsRemaining.

Module StateUpdate.
Record t := mk {
  player1_bomb_used : bool;
  player2_bomb_used : bool;
  bombs_remaining : BombsRemaining.t
}.
End StateUpdate.

Module FinalResult.
Record t := mk {
  move_accepted : bool;
  action : string;
  player_message : string
}.
End FinalResult.

(** What a decision dict holds under the key [game_logic]: no such key,
    JSON null, or an object.  (Any other value that is not an object makes
    the program raise where null does; it is not modelled apart.) *)
Inductive GameLogicEntry :=
| Absent
| Null
| Present (gl : GameLogic.t).

(** A judge decision.  The [game_logic] entry is three-valued because the
    match tally reads it with [rd.get("game_logic", {})], which tolerates
    a missing key and raises on null; every other section is read by
    subscript somewhere in the program and is taken to be complete. *)
Module JudgeDecision.
Record t := mk {
  round_number : Z;
  player2_raw_input : string;
  intent_understanding : IntentUnderstanding.t;
  validation : Validation.t;
  game_logic : GameLogicEntry;
  state_update : StateUpdate.t;
  final_result : FinalResult.t
}.
End JudgeDecision.

Module GameContext.
Record t := mk {
  round_number : Z;
  player1_move : option string;
  player2_move : option string;
  player1_bomb_used : bool;
  player2_bomb_used : bool
}.
End GameContext.

Module GameState.
Record t := mk {
  round_number : Z;
  player1_bomb_used : bool;
  player2_bomb_used : bool;
  rounds : list JudgeDecision.t
}.
End GameState.

(** [initialize_game()] *)
Definition initialize_game : GameState.t :=
  GameState.mk 1 false false [].

(** ** [mock_judge_response] *)

Definition move_map : list (string * list string) :=
  [ ("rock",     ["rock"; "rok"; "stone"; "boulder"; "fist"]);
    ("paper",    ["paper"; "ppr"; "pap"; "sheet"; "document"]);
    ("scissors", ["scissors"; "scissor"; "sciz"; "snip"; "shears"]);
    ("bomb",     ["bomb"; "boom"; "nuke"; "dynamite"; "c4"; "explosion"]) ].

Definition refuses : list string :=
  ["pass"; "skip"; "i don't want"; "dont want"; "not play"; "nope"].

Definition beats : list (string * string) :=
  [("rock", "scissors"); ("scissors", "paper"); ("paper", "rock")].

(** The inner loop [for k in keys]: the first key found in [raw_l] sets
    [move_understood] and breaks. *)
Fixpoint scan_keys (mv : string) (keys : list string) (raw_l : string)
    (move_understood : option string) : option string :=
  match keys with
  | [] => move_understood
  | k :: keys' =>
      if contains k raw_l then Some mv
      else scan_keys mv keys' raw_l move_understood
  end.

(** The outer loop [for mv, keys in move_map.items()], left as soon as
    [move_understood] is truthy. *)
Fixpoint scan_moves (items : list (string * list string)) (raw_l : string)
    (move_understood : option string) : option string :=
  match items with
  | [] => move_understood
  | (mv, keys) :: items' =>
      let move_understood := scan_keys mv keys raw_l move_understood in
      if truthy move_understood then move_understood
      else scan_moves items' raw_l move_understood
  end.

(** Lines 139-162: lower-casing, keyword scan, refusal override. *)
Definition resolve_intent (raw : string) : option string :=
  let raw_l := lower raw in
  let move_understood := scan_moves move_map raw_l None in
  if existsb (fun r => contains r raw_l) refuses then None
  else move_understood.

(** Lines 164-173. *)
Definition validate (move_understood : option string)
    (player2_bomb_used : bool) : Validation.t :=
  match move_understood with
  | None =>
      Validation.mk "UNCLEAR" "Could not determine move from input."
  | Some mv =>
      if String.eqb mv "bomb" && player2_bomb_used
      then Validation.mk "INVALID" "Bomb already used by player 2."
      else Validation.mk "VALID" "Move recognized and constraints satisfied."
  end.

(** Lines 183-206, the body of [if validation_status == "VALID"]: the
    round winner and its explanation. *)
Definition decide_round (p1 p2 : option string) : option string * string :=
  if py_eq p1 p2 then
    (Some "draw", "Both players played " ++ py_str p1 ++ ". It's a draw.")
  else if py_eq p1 (Some "bomb") && py_eq p2 (Some "bomb") then
    (Some "draw", "Both players used bomb. Draw.")
  else if py_eq p1 (Some "bomb") then
    (Some "player1", "Player1's bomb beats player2's move.")
  else if py_eq p2 (Some "bomb") then
    (Some "player2", "Player2's bomb beats player1's move.")
  else if py_eq (dict_get beats p1) p2 then
    (Some "player1", py_str p1 ++ " beats " ++ py_str p2 ++ ".")
  else if py_eq (dict_get beats p2) p1 then
    (Some "player2", py_str p2 ++ " beats " ++ py_str p1 ++ ".")
  else
    (Some "draw", "No clear winner (unexpected input).").

(** Line 139, [game_context.get("player2_move") or ""]: a missing, null
    or empty entry reads as the empty string. *)
Definition raw_input (game_context : GameContext.t) : string :=
  match GameContext.player2_move game_context with
  | Some s => if String.eqb s "" then "" else s
  | None => ""
  end.

Definition mock_judge_response (system_prompt : string)
    (game_context : GameContext.t) : JudgeDecision.t :=
  let raw := raw_input game_context in
  let move_understood := resolve_intent raw in
  let v := validate move_understood
             (GameContext.player2_bomb_used game_context) in
  let validation_status := Validation.status v in
  let validation_reason := Validation.reason v in
  let p1 := GameContext.player1_move game_context in
  let p2 := move_understood in
  let '(round_winner, round_explanation) :=
    if String.eqb validation_status "VALID" then decide_round p1 p2
    else (None, "No winner determined.") in
  let p1_bomb := GameContext.player1_bomb_used game_context in
  let p2_bomb :=
    if String.eqb validation_status "VALID" && py_eq p2 (Some "bomb")
    then true
    else GameContext.player2_bomb_used game_context in
  JudgeDecision.mk
    (GameContext.round_number game_context)
    raw
    (IntentUnderstanding.mk p2
       "Matched keywords heuristically in mock mode.")
    (Validation.mk validation_status validation_reason)
    (Present (GameLogic.mk p1 p2 round_winner (Some round_explanation)))
    (StateUpdate.mk p1_bomb p2_bomb
       (BombsRemaining.mk (if p1_bomb then "0" else "1")
                          (if p2_bomb then "0" else "1")))
    (FinalResult.mk
       (String.eqb validation_status "VALID")
       (if String.eqb validation_status "VALID" then "PLAYED"
        else if String.eqb validation_status "INVALID" then "REJECTED"
        else "UNCLEAR_MOVE")
       ("(MOCK) " ++ (if String.eqb validation_status "VALID"
                      then "Move accepted."
                      else validation_reason))).

(** ** [play_round] *)

(** The external judge, seen from [play_round]: the call either raises
    (caught, the mock judge takes over) or returns a text that
    [json.loads] decodes to a decision, or fails to decode (uncaught). *)
Inductive BackendReply :=
| ApiFailed
| Replied (decoded : option JudgeDecision.t).

Definition Client := string -> GameContext.t -> BackendReply.

Definition build_context (game_state : GameState.t)
    (player2_input : string) (player1_move : option string)
  : GameContext.t :=
  GameContext.mk
    (GameState.round_number game_state)
    player1_move
    (Some player2_input)
    (GameState.player1_bomb_used game_state)
    (GameState.player2_bomb_used game_state).

(** Lines 59-81: who judges.  [None] is an uncaught exception. *)
Definition judge (client : option Client) (system_prompt : string)
    (game_context : GameContext.t) : option JudgeDecision.t :=
  match client with
  | None => Some (mock_judge_response system_prompt game_context)
  | Some c =>
      match c system_prompt game_context with
      | ApiFailed => Some (mock_judge_response system_prompt game_context)
      | Replied decoded => decoded
      end
  end.

(** Lines 83-89: commit the flags when the move was accepted, append the
    decision to the history. *)
Definition commit (game_state : GameState.t)
    (judge_decision : JudgeDecision.t) : GameState.t :=
  let su := JudgeDecision.state_update judge_decision in
  let accepted :=
    FinalResult.move_accepted (JudgeDecision.final_result judge_decision) in
  GameState.mk
    (GameState.round_number game_state)
    (if accepted then StateUpdate.player1_bomb_used su
     else GameState.player1_bomb_used game_state)
    (if accepted then StateUpdate.player2_bomb_used su
     else GameState.player2_bomb_used game_state)
    (GameState.rounds game_state ++ [judge_decision]).

(** [play_round] returns the decision and leaves the game state mutated;
    here the new state is returned next to the decision. *)
Definition play_round (client : option Client) (system_prompt : string)
    (game_state : GameState.t) (player2_input : string)
    (player1_move : option string)
  : option (GameState.t * JudgeDecision.t) :=
  let game_context := build_context game_state player2_input player1_move in
  match judge client system_prompt game_context with
  | None => None
  | Some judge_decision => Some (commit game_state judge_decision, judge_decision)
  end.

(** A run of rounds on one game state, with no match reset in between;
    each round brings the player's text and the opposing move. *)
Fixpoint play_rounds (client : option Client) (system_prompt : string)
    (game_state : GameState.t) (inputs : list (string * option string))
  : option GameState.t :=
  match inputs with
  | [] => Some game_state
  | (player2_input, player1_move) :: inputs' =>
      match play_round client system_prompt game_state
              player2_input player1_move with
      | None => None
      | Some (game_state', _) =>
          play_rounds client system_prompt game_state' inputs'
      end
  end.

(** ** The match loop of [main] *)

Module MatchSummary.
Record t := mk {
  user_wins : Z;
  bot_wins : Z;
  draws : Z;
  final : string
}.
End MatchSummary.

(** [rd.get("game_logic", {}).get("round_winner")]: the winner named by
    the record, null for a missing [game_logic] key (the default [{}]
    answers the second [get]) and for a missing or null [round_winner];
    [None] here is the [AttributeError] of [None.get] on a null
    [game_logic]. *)
Definition recorded_winner (rd : JudgeDecision.t) : option (option string) :=
  match JudgeDecision.game_logic rd with
  | Absent => Some None
  | Null => None
  | Present gl => Some (GameLogic.round_winner gl)
  end.

(** Lines 318-328: the counting loop, from given counter values; [None]
    when the lookup raises on some record. *)
Fixpoint count_rounds (last_three : list JudgeDecision.t)
    (user_wins bot_wins draws : Z) : option (Z * Z * Z) :=
  match last_three with
  | [] => Some (user_wins, bot_wins, draws)
  | rd :: rest =>
      match recorded_winner rd with
      | None => None
      | Some rw =>
          if py_eq rw (Some "player2") then
            count_rounds rest (user_wins + 1)%Z bot_wins draws
          else if py_eq rw (Some "player1") then
            count_rounds rest user_wins (bot_wins + 1)%Z draws
          else
            count_rounds rest user_wins bot_wins (draws + 1)%Z
      end
  end.

(** Lines 318-335: the tally of a match and its verdict. *)
Definition tally (last_three : list JudgeDecision.t)
  : option MatchSummary.t :=
  match count_rounds last_three 0 0 0 with
  | None => None
  | Some (user_wins, bot_wins, draws) =>
      let final :=
        if (user_wins >? bot_wins)%Z then "User wins"
        else if (bot_wins >? user_wins)%Z then "Bot wins"
        else "Draw" in
      Some (MatchSummary.mk user_wins bot_wins draws final)
  end.

(** [rounds[-3:]] *)
Definition last3 {A : Type} (l : list A) : list A :=
  skipn (List.length l - 3) l.

(** How one pass through the body of [while True] ends: the loop is
    left, the line is asked for again, an exception escapes (with the game
    state as the pass has mutated it by then), or the round was played
    and the loop goes on with a game state, after printing a match
    summary if the match ended. *)
Inductive Iteration :=
| Quit
| Reprompt
| Raised (game_state : GameState.t)
| Played (game_state : GameState.t) (judge_decision : JudgeDecision.t)
         (summary : option MatchSummary.t).

Definition bump_round (game_state : GameState.t) : GameState.t :=
  GameState.mk
    (GameState.round_number game_state + 1)
    (GameState.player1_bomb_used game_state)
    (GameState.player2_bomb_used game_state)
    (GameState.rounds game_state).

(** ** Vocabulary of the specification *)

(** The four move categories and the string each is written as. *)
Inductive MoveCategory := Rock | Paper | Scissors | Bomb.

Definition move_name (m : MoveCategory) : string :=
  match m with
  | Rock => "rock"
  | Paper => "paper"
  | Scissors => "scissors"
  | Bomb => "bomb"
  end.

(** The synonym substrings the keyword table lists for a category. *)
Definition synonyms (m : MoveCategory) : list string :=
  match find (fun kv => String.eqb (fst kv) (move_name m)) move_map with
  | Some (_, keys) => keys
  | None => []
  end.

(** [phrase] occurs in [raw] when case is ignored: some contiguous piece
    of [raw] lower-cases to [phrase]. *)
Definition occurs_ci (phrase raw : string) : Prop :=
  exists pre mid suf, raw = pre ++ mid ++ suf /\ lower mid = phrase.

(** The cyclic relation: rock beats scissors, scissors beats paper, paper
    beats rock. *)
Inductive beats_rel : MoveCategory -> MoveCategory -> Prop :=
| rock_beats_scissors : beats_rel Rock Scissors
| scissors_beats_paper : beats_rel Scissors Paper
| paper_beats_rock : beats_rel Paper Rock.

(** The outcome table in the specification's words. *)
Inductive outcome_spec : MoveCategory -> MoveCategory -> string -> Prop :=
| outcome_equal p : outcome_spec p p "draw"
| outcome_bomb1 p2 : p2 <> Bomb -> outcome_spec Bomb p2 "player1"
| outcome_bomb2 p1 : p1 <> Bomb -> outcome_spec p1 Bomb "player2"
| outcome_cycle1 p1 p2 : beats_rel p1 p2 -> outcome_spec p1 p2 "player1"
| outcome_cycle2 p1 p2 : beats_rel p2 p1 -> outcome_spec p1 p2 "player2".

(** A field of the [game_logic] object of a decision, if the decision has
    such an object. *)
Definition entry_map {B : Type} (f : GameLogic.t -> B) (e : GameLogicEntry)
  : option B :=
  match e with
  | Present gl => Some (f gl)
  | Absent | Null => None
  end.

(** A [gameLogic] section that is absent or null, or present with every
    field null. *)
Definition game_logic_blank (d : JudgeDecision.t) : Prop :=
  match JudgeDecision.game_logic d with
  | Absent | Null => True
  | Present gl =>
      GameLogic.player1_move gl = None /\
      GameLogic.player2_move gl = None /\
      GameLogic.round_winner gl = None /\
      GameLogic.round_explanation gl = None
  end.

(** The two players and the bomb-used flag of each in a game state. *)
Inductive Player := Player1 | Player2.

Definition bomb_used (who : Player) (game_state : GameState.t) : bool :=
  match who with
  | Player1 => GameState.player1_bomb_used game_state
  | Player2 => GameState.player2_bomb_used game_state
  end.

(** The record has a [game_logic] object whose [round_winner] field is
    the string [who]. *)
Definition names_winner (who : string) (rd : JudgeDecision.t) : bool :=
  match JudgeDecision.game_logic rd with
  | Present gl =>
      match GameLogic.round_winner gl with
      | Some w => String.eqb w who
      | None => false
      end
  | Absent | Null => false
  end.

(** How many of the records name [who] as round winner, and how many name
    neither player. *)
Definition rounds_won_by (who : string) (rds : list JudgeDecision.t) : Z :=
  Z.of_nat (List.length (filter (names_winner who) rds)).

Definition rounds_undecided (rds : list JudgeDecision.t) : Z :=
  Z.of_nat (List.length
    (filter (fun rd => negb (names_winner "player2" rd)
                    && negb (names_winner "player1" rd))
            rds)).

(** No record of the list has a null [game_logic] entry. *)
Definition null_free (rds : list JudgeDecision.t) : Prop :=
  forall rd, In rd rds -> JudgeDecision.game_logic rd <> Null.

(** Exactly one of three propositions holds. *)
Definition exactly_one (A B C : Prop) : Prop :=
  (A /\ ~ B /\ ~ C) \/ (~ A /\ B /\ ~ C) \/ (~ A /\ ~ B /\ C).

(** Fallback mode: there is no client, or every call to it fails, so
    that each round is judged by the mock judge. *)
Definition falls_back (client : option Client) : Prop :=
  match client with
  | None => True
  | Some c => forall system_prompt game_context,
      c system_prompt game_context = ApiFailed
  end.

(** A line the loop forwards to the judge: not a quit word, not empty. *)
Definition forwarded (player_input : string) : Prop :=
  existsb (String.eqb (lower player_input)) ["quit"; "exit"; "q"] = false
  /\ player_input <> "".

(** ** The judge's text before [json.loads] (lines 74-81) *)

(** [s[n:]] *)
Fixpoint drop (n : nat) (s : string) : string :=
  match n, s with
  | O, _ => s
  | S _, EmptyString => EmptyString
  | S n', String _ s' => drop n' s'
  end.

(** [s[:-n]] for a positive [n] *)
Definition drop_last (n : nat) (s : string) : string :=
  substring 0 (String.length s - n) s.

(** [s.endswith(suf)]: some tail of [s] is [suf]. *)
Fixpoint endswith (suf s : string) : bool :=
  String.eqb s suf ||
  match s with
  | EmptyString => false
  | String _ s' => endswith suf s'
  end.

(** Lines 74-79: the three independent [if]s that cut code-fence markers
    off the two ends of the response text. *)
Definition strip_fences (response_text : string) : string :=
  let response_text :=
    if prefix "```json" response_text then drop 7 response_text
    else response_text in
  let response_text :=
    if prefix "```" response_text then drop 3 response_text
    else response_text in
  if endswith "```" response_text then drop_last 3 response_text
  else response_text.

(** [c.isspace()] on a code point below 256. *)
Definition is_space (c : ascii) : bool :=
  let n := N_of_ascii c in
  (((9 <=? n) && (n <=? 13)) || ((28 <=? n) && (n <=? 32))
   || (n =? 133) || (n =? 160))%N.

Fixpoint lstrip (s : string) : string :=
  match s with
  | EmptyString => EmptyString
  | String c s' => if is_space c then lstrip s' else s
  end.

Fixpoint rstrip (s : string) : string :=
  match s with
  | EmptyString => EmptyString
  | String c s' =>
      let r := rstrip s' in
      if is_space c && String.eqb r "" then "" else String c r
  end.

(** [s.strip()] *)
Definition strip (s : string) : string := rstrip (lstrip s).

(** Line 81: the text handed to [json.loads]. *)
Definition json_text (response_text : string) : string :=
  strip (strip_fences response_text).

(** A client seen at the level of its response text, and the client of
    [play_round] it gives once a JSON decoder is fixed. *)
Definition TextClient := string -> GameContext.t -> option string.

Definition client_of_text (json_loads : string -> option JudgeDecision.t)
    (c : TextClient) : Client :=
  fun system_prompt game_context =>
    match c system_prompt game_context with
    | None => ApiFailed
    | Some response_text => Replied (json_loads (json_text response_text))
    end.

(** ** [print_round_result] *)

(** [str] of an [int] and of a [bool], as f-strings interpolate them. *)
Definition py_int (z : Z) : string :=
  NilZero.string_of_int (Z.to_int z).

Definition py_bool (b : bool) : string :=
  if b then "True" else "False".

Definition newline : string := String (ascii_of_nat 10) "".

(** [s * n] *)
Fixpoint repeat_string (s : string) (n : nat) : string :=
  match n with
  | O => ""
  | S n' => s ++ repeat_string s n'
  end.

(** The texts passed to [print], in order, and whether the function ran
    to its end, for a decision whose other sections are complete and
    whose [game_logic] object, if it has one, holds its four fields
    ([false]: the [KeyError] on a missing [game_logic], or the
    [TypeError] on a null one, right after the heading is printed). *)
Definition print_round_result (judge_decision : JudgeDecision.t)
  : list string * bool :=
  let iu := JudgeDecision.intent_understanding judge_decision in
  let v := JudgeDecision.validation judge_decision in
  let su := JudgeDecision.state_update judge_decision in
  let fr := JudgeDecision.final_result judge_decision in
  let head :=
    [ newline ++ repeat_string "=" 70;
      "ROUND " ++ py_int (JudgeDecision.round_number judge_decision);
      repeat_string "=" 70;
      newline ++ "[INTENT UNDERSTANDING]";
      "  Raw Input: " ++ JudgeDecision.player2_raw_input judge_decision;
      "  Move Understood: "
        ++ py_str (IntentUnderstanding.move_understood iu);
      "  Reasoning: " ++ IntentUnderstanding.reasoning iu;
      newline ++ "[VALIDATION]";
      "  Status: " ++ Validation.status v;
      "  Reason: " ++ Validation.reason v ] in
  let tail :=
    [ newline ++ "[STATE UPDATE]";
      "  Player 1 Bomb Used: "
        ++ py_bool (StateUpdate.player1_bomb_used su);
      "  Player 2 Bomb Used: "
        ++ py_bool (StateUpdate.player2_bomb_used su);
      "  Bombs Remaining: P1="
        ++ BombsRemaining.player1 (StateUpdate.bombs_remaining su)
        ++ ", P2="
        ++ BombsRemaining.player2 (StateUpdate.bombs_remaining su);
      newline ++ "[RESULT]";
      "  Move Accepted: " ++ py_bool (FinalResult.move_accepted fr);
      "  Action: " ++ FinalResult.action fr;
      "  Message: " ++ FinalResult.player_message fr ] in
  if String.eqb (Validation.status v) "VALID" then
    match JudgeDecision.game_logic judge_decision with
    | Absent | Null => (List.app head [newline ++ "[GAME LOGIC]"], false)
    | Present gl =>
        let logic :=
          [ newline ++ "[GAME LOGIC]";
            "  Player 1 Move: " ++ py_str (GameLogic.player1_move gl);
            "  Player 2 Move: " ++ py_str (GameLogic.player2_move gl);
            "  Round Winner: " ++ py_str (GameLogic.round_winner gl);
            "  Explanation: " ++ py_str (GameLogic.round_explanation gl) ] in
        (List.app head (List.app logic tail), true)
    end
  else (List.app head tail, true).

(** ** The whole loop of [main] *)

(** One pass through the body of [while True] (lines 282-344) on the line
    as typed and the move [random.choice] draws: the line is stripped;
    [play_round] judges and mutates the game state; [print_round_result]
    and then, at the end of a match, the tally may raise, which ends the
    program with the game state as mutated so far. *)
Definition main_pass (client : option Client) (system_prompt : string)
    (game_state : GameState.t) (line : string) (ai_move : string)
  : Iteration :=
  let player_input := strip line in
  if existsb (String.eqb (lower player_input)) ["quit"; "exit"; "q"] then Quit
  else if String.eqb player_input "" then Reprompt
  else
    match play_round client system_prompt game_state
            player_input (Some ai_move) with
    | None => Raised game_state
    | Some (game_state, judge_decision) =>
        if snd (print_round_result judge_decision) then
          let game_state := bump_round game_state in
          if (List.length (GameState.rounds game_state) mod 3 =? 0)%nat then
            match tally (last3 (GameState.rounds game_state)) with
            | None => Raised game_state
            | Some summary =>
                Played initialize_game judge_decision (Some summary)
            end
          else
            Played game_state judge_decision None
        else Raised game_state
    end.

(** How a run of the loop over finitely many typed lines ends. *)
Inductive LoopEnd := MoreInput | UserQuit | Crashed.

(** The loop on a script of typed lines, each with the move
    [random.choice] would draw for it: the game state reached, the match
    summaries printed on the way, and how the run ended. *)
Fixpoint main_loop (client : option Client) (system_prompt : string)
    (game_state : GameState.t) (script : list (string * string))
  : GameState.t * list MatchSummary.t * LoopEnd :=
  match script with
  | [] => (game_state, [], MoreInput)
  | (line, ai_move) :: script' =>
      match main_pass client system_prompt game_state line ai_move with
      | Quit => (game_state, [], UserQuit)
      | Raised game_state' => (game_state', [], Crashed)
      | Reprompt => main_loop client system_prompt game_state script'
      | Played game_state' _ summary =>
          let '(final_state, summaries, ended) :=
            main_loop client system_prompt game_state' script' in
          (final_state,
           match summary with
           | Some s => s :: summaries
           | None => summaries
           end,
           ended)
      end
  end.

(** ** More vocabulary *)

(** Some synonym of category [m] occurs in [raw], case ignored. *)
Definition mentions (m : MoveCategory) (raw : string) : Prop :=
  exists k, In k (synonyms m) /\ occurs_ci k raw.

(** Some refusal phrase occurs in [raw], case ignored. *)
Definition refused (raw : string) : Prop :=
  exists r, In r refuses /\ occurs_ci r raw.

(** The place of a category in the scan order of [move_map]. *)
Definition rank (m : MoveCategory) : nat :=
  match m with
  | Rock => 0
  | Paper => 1
  | Scissors => 2
  | Bomb => 3
  end.

(** The other side's view of a round winner. *)
Definition swap_winner (w : option string) : option string :=
  if py_eq w (Some "player1") then Some "player2"
  else if py_eq w (Some "player2") then Some "player1"
  else w.

(** The rounds of a history in which player 2's bomb was accepted. *)
Definition accepted_bombs (rds : list JudgeDecision.t) : nat :=
  List.length
    (filter (fun d =>
               FinalResult.move_accepted (JudgeDecision.final_result d)
               && py_eq (IntentUnderstanding.move_understood
                           (JudgeDecision.intent_understanding d))
                        (Some "bomb"))
            rds).

(** What the loop keeps true of its game state between passes. *)
Definition loop_invariant (game_state : GameState.t) : Prop :=
  GameState.round_number game_state
    = (1 + Z.of_nat (List.length (GameState.rounds game_state)))%Z
  /\ (List.length (GameState.rounds game_state) < 3)%nat.

(** The last character of a string, if it has one. *)
Fixpoint last_char (s : string) : option ascii :=
  match s with
  | EmptyString => None
  | String c EmptyString => Some c
  | String _ s' => last_char s'
  end.

(** The code-fence marker. *)
Definition fence : string := "```".

(** Every character of [s] is white space. *)
Fixpoint all_space (s : string) : bool :=
  match s with
  | EmptyString => true
  | String c s' => is_space c && all_space s'
  end.

(** ** Strings: append, lower-casing and substring search *)

Lemma append_assoc (a b c : string) : (a ++ b) ++ c = a ++ (b ++ c).
Proof.
  induction a as [|x a IH]; simpl; [reflexivity | now rewrite IH].
Qed.

Lemma lower_append (a b : string) : lower (a ++ b) = lower a ++ lower b.
Proof.
  induction a as [|x a IH]; simpl; [reflexivity | now rewrite IH].
Qed.

(** A split of [lower s] comes from a split of [s]. *)
Lemma lower_split (s a b : string) :
  lower s = a ++ b ->
  exists x y, s = x ++ y /\ lower x = a /\ lower y = b.
Proof.
  revert s; induction a as [|c a IH]; intros s H.
  - exists "", s. auto.
  - destruct s as [|c' s]; simpl in H; [discriminate|].
    injection H as Hc Hs.
    destruct (IH _ Hs) as (x & y & -> & Hx & Hy).
    exists (String c' x), y. simpl. now rewrite Hc, Hx, Hy.
Qed.

Lemma prefix_append (k s : string) : prefix k (k ++ s) = true.
Proof.
  induction k as [|c k IH]; simpl.
  - now destruct s.
  - destruct (ascii_dec c c); [exact IH | congruence].
Qed.

Lemma prefix_inv (k s : string) :
  prefix k s = true -> exists suf, s = k ++ suf.
Proof.
  revert s; induction k as [|c k IH]; intros s H.
  - now exists s.
  - destruct s as [|c' s]; simpl in H; [discriminate|].
    destruct (ascii_dec c c') as [<-|]; [|discriminate].
    destruct (IH _ H) as [suf ->]. now exists suf.
Qed.

(** [contains] is substring occurrence. *)
Lemma contains_iff (k s : string) :
  contains k s = true <-> exists pre suf, s = pre ++ k ++ suf.
Proof.
  split.
  - induction s as [|c s IH]; cbn [contains]; intros H.
    + rewrite orb_false_r in H. destruct (prefix_inv _ _ H) as [suf E].
      now exists "", suf.
    + apply orb_true_iff in H as [H|H].
      * destruct (prefix_inv _ _ H) as [suf E]. now exists "", suf.
      * destruct (IH H) as (pre & suf & ->). now exists (String c pre), suf.
  - intros (pre & suf & ->).
    induction pre as [|c pre IH].
    + change ("" ++ k ++ suf) with (k ++ suf).
      destruct (k ++ suf) eqn:E; cbn [contains]; rewrite <- E, prefix_append;
        reflexivity.
    + cbn [append contains]. rewrite IH. apply orb_true_r.
Qed.

(** The program's test [k in raw.lower()] decides case-blind occurrence. *)
Lemma occurs_ci_iff (k raw : string) :
  occurs_ci k raw <-> contains k (lower raw) = true.
Proof.
  rewrite contains_iff. split.
  - intros (pre & mid & suf & -> & <-).
    exists (lower pre), (lower suf). now rewrite !lower_append.
  - intros (a & b & H).
    destruct (lower_split _ _ _ H) as (pre & rest & -> & Hpre & Hrest).
    destruct (lower_split _ _ _ Hrest) as (mid & suf & -> & Hmid & Hsuf).
    now exists pre, mid, suf.
Qed.

Lemma existsb_contains_true (keys : list string) (raw : string) :
  (exists k, In k keys /\ occurs_ci k raw) ->
  existsb (fun k => contains k (lower raw)) keys = true.
Proof.
  intros (k & Hin & Hk). apply existsb_exists.
  exists k. split; [exact Hin | now apply occurs_ci_iff].
Qed.

Lemma existsb_contains_false (keys : list string) (raw : string) :
  (forall k, In k keys -> ~ occurs_ci k raw) ->
  existsb (fun k => contains k (lower raw)) keys = false.
Proof.
  intros H. destruct (existsb _ keys) eqn:E; [|reflexivity].
  apply existsb_exists in E as (k & Hin & Hk).
  exfalso. apply (H k Hin). now apply occurs_ci_iff.
Qed.

(** ** The keyword scan *)

Lemma scan_keys_spec (mv : string) (keys : list string) (raw_l : string)
    (acc : option string) :
  scan_keys mv keys raw_l acc =
  if existsb (fun k => contains k raw_l) keys then Some mv else acc.
Proof.
  induction keys as [|k keys IH]; simpl; [reflexivity|].
  destruct (contains k raw_l); simpl; [reflexivity | exact IH].
Qed.

Lemma scan_moves_miss mv keys items raw_l :
  existsb (fun k => contains k raw_l) keys = false ->
  scan_moves ((mv, keys) :: items) raw_l None = scan_moves items raw_l None.
Proof.
  intros H. simpl. now rewrite scan_keys_spec, H.
Qed.

Lemma scan_moves_hit mv keys items raw_l :
  existsb (fun k => contains k raw_l) keys = true ->
  mv <> "" ->
  scan_moves ((mv, keys) :: items) raw_l None = Some mv.
Proof.
  intros H Hmv. simpl. rewrite scan_keys_spec, H. simpl.
  apply String.eqb_neq in Hmv. now rewrite Hmv.
Qed.

Lemma synonyms_bomb :
  synonyms Bomb = ["bomb"; "boom"; "nuke"; "dynamite"; "c4"; "explosion"].
Proof. reflexivity. Qed.

Lemma move_map_keys :
  move_map = [ (move_name Rock, synonyms Rock);
               (move_name Paper, synonyms Paper);
               (move_name Scissors, synonyms Scissors);
               (move_name Bomb, synonyms Bomb) ].
Proof. reflexivity. Qed.

(** The scan only ever answers with one of the four categories. *)
Lemma scan_moves_category (raw_l : string) :
  exists r : option MoveCategory,
    scan_moves move_map raw_l None = option_map move_name r.
Proof.
  rewrite move_map_keys.
  destruct (existsb (fun k => contains k raw_l) (synonyms Rock)) eqn:E1.
  { exists (Some Rock). now apply scan_moves_hit. }
  rewrite (scan_moves_miss _ _ _ _ E1).
  destruct (existsb (fun k => contains k raw_l) (synonyms Paper)) eqn:E2.
  { exists (Some Paper). now apply scan_moves_hit. }
  rewrite (scan_moves_miss _ _ _ _ E2).
  destruct (existsb (fun k => contains k raw_l) (synonyms Scissors)) eqn:E3.
  { exists (Some Scissors). now apply scan_moves_hit. }
  rewrite (scan_moves_miss _ _ _ _ E3).
  destruct (existsb (fun k => contains k raw_l) (synonyms Bomb)) eqn:E4.
  { exists (Some Bomb). now apply scan_moves_hit. }
  rewrite (scan_moves_miss _ _ _ _ E4).
  now exists None.
Qed.

Lemma resolve_intent_category (raw : string) :
  exists r : option MoveCategory, resolve_intent raw = option_map move_name r.
Proof.
  unfold resolve_intent.
  destruct (existsb _ refuses); [now exists None|].
  apply scan_moves_category.
Qed.

(** ** The fields of the mock judge's decision *)

Lemma or_empty (s : string) : (if String.eqb s "" then "" else s) = s.
Proof.
  destruct (String.eqb_spec s ""); congruence.
Qed.

Lemma raw_input_some rn p1 raw f1 f2 :
  raw_input (GameContext.mk rn p1 (Some raw) f1 f2) = raw.
Proof. apply or_empty. Qed.

Section MockFields.
Variables (system_prompt : string) (ctx : GameContext.t).

Let d := mock_judge_response system_prompt ctx.
Let p2 := resolve_intent (raw_input ctx).
Let v := validate p2 (GameContext.player2_bomb_used ctx).

Local Ltac open_mock :=
  subst d v p2; unfold mock_judge_response; cbn zeta;
  destruct (if String.eqb _ "VALID" then _ else _) as [w e].

Lemma mock_intent :
  IntentUnderstanding.move_understood (JudgeDecision.intent_understanding d)
  = p2.
Proof. open_mock. reflexivity. Qed.

Lemma mock_validation : JudgeDecision.validation d = v.
Proof.
  open_mock. cbn [JudgeDecision.validation]. now destruct (validate _ _).
Qed.

Lemma mock_game_logic :
  JudgeDecision.game_logic d =
  let r := if String.eqb (Validation.status v) "VALID"
           then decide_round (GameContext.player1_move ctx) p2
           else (None, "No winner determined.") in
  Present (GameLogic.mk (GameContext.player1_move ctx) p2
          (fst r) (Some (snd r))).
Proof. open_mock. reflexivity. Qed.

Lemma mock_state_update :
  JudgeDecision.state_update d =
  let p1_bomb := GameContext.player1_bomb_used ctx in
  let p2_bomb :=
    if String.eqb (Validation.status v) "VALID" && py_eq p2 (Some "bomb")
    then true else GameContext.player2_bomb_used ctx in
  StateUpdate.mk p1_bomb p2_bomb
    (BombsRemaining.mk (if p1_bomb then "0" else "1")
                       (if p2_bomb then "0" else "1")).
Proof. open_mock. reflexivity. Qed.

Lemma mock_move_accepted :
  FinalResult.move_accepted (JudgeDecision.final_result d) =
  String.eqb (Validation.status v) "VALID".
Proof. open_mock. reflexivity. Qed.
End MockFields.

(** ** Intent resolution: refusals and the bomb synonyms *)

(** C7. Every raw input that contains one of the refusal phrases "pass",
    "skip", "i don't want", "dont want", "not play", "nope" (case ignored)
    is resolved to null, whatever move synonyms it also contains; this
    holds of the resolver and of the intent the mock judge reports. *)
Theorem refusal_overrides_intent (raw r : string) :
  In r ["pass"; "skip"; "i don't want"; "dont want"; "not play"; "nope"] ->
  occurs_ci r raw ->
  resolve_intent raw = None /\
  forall system_prompt rn p1 f1 f2,
    IntentUnderstanding.move_understood
      (JudgeDecision.intent_understanding
         (mock_judge_response system_prompt
            (GameContext.mk rn p1 (Some raw) f1 f2))) = None.
Proof.
  intros Hin Hocc.
  assert (E : resolve_intent raw = None).
  { unfold resolve_intent.
    rewrite (existsb_contains_true refuses raw); [reflexivity|].
    now exists r. }
  split; [exact E|].
  intros. now rewrite mock_intent, raw_input_some.
Qed.

Lemma refusal_overrides_intent_witness :
  In "not play" ["pass"; "skip"; "i don't want"; "dont want"; "not play"; "nope"]
  /\ occurs_ci "not play" "I will NOT play rock"
  /\ resolve_intent "I will NOT play rock" = None.
Proof.
  assert (Hin : In "not play"
            ["pass"; "skip"; "i don't want"; "dont want"; "not play"; "nope"])
    by (simpl; tauto).
  assert (Hocc : occurs_ci "not play" "I will NOT play rock")
    by (exists "I will ", "NOT play", " rock"; split; reflexivity).
  split; [exact Hin|]. split; [exact Hocc|].
  exact (proj1 (refusal_overrides_intent "I will NOT play rock" "not play"
                  Hin Hocc)).
Defined.

(** C1, as stated, fails: "rock bomb" contains the bomb synonym "bomb" and
    no refusal phrase, yet it is resolved to rock, the category scanned
    first. *)
Lemma bomb_synonym_alone_counterexample :
  ~ (forall raw : string,
       (exists k, In k ["bomb"; "boom"; "nuke"; "dynamite"; "c4"; "explosion"]
                  /\ occurs_ci k raw) ->
       (forall r, In r ["pass"; "skip"; "i don't want"; "dont want";
                        "not play"; "nope"] -> ~ occurs_ci r raw) ->
       resolve_intent raw = Some "bomb").
Proof.
  intros H.
  assert (E : resolve_intent "rock bomb" = Some "rock") by reflexivity.
  rewrite (H "rock bomb") in E; [discriminate| |].
  - exists "bomb". split; [simpl; tauto|].
    exists "rock ", "bomb", "". split; reflexivity.
  - intros r Hin. rewrite occurs_ci_iff.
    simpl in Hin.
    repeat (destruct Hin as [<-|Hin]; [vm_compute; discriminate|]).
    contradiction.
Qed.

(** C1, amended. Every raw input that contains a bomb synonym, no refusal
    phrase and no synonym of rock, paper or scissors (case ignored
    throughout) is resolved to bomb, by the resolver and in the intent the
    mock judge reports. *)
Theorem bomb_synonym_resolves_to_bomb (raw : string) :
  (exists k, In k ["bomb"; "boom"; "nuke"; "dynamite"; "c4"; "explosion"]
             /\ occurs_ci k raw) ->
  (forall r, In r ["pass"; "skip"; "i don't want"; "dont want";
                   "not play"; "nope"] -> ~ occurs_ci r raw) ->
  (forall m k, m <> Bomb -> In k (synonyms m) -> ~ occurs_ci k raw) ->
  resolve_intent raw = Some "bomb" /\
  forall system_prompt rn p1 f1 f2,
    IntentUnderstanding.move_understood
      (JudgeDecision.intent_understanding
         (mock_judge_response system_prompt
            (GameContext.mk rn p1 (Some raw) f1 f2))) = Some "bomb".
Proof.
  intros Hbomb Hrefuse Hother.
  assert (E : resolve_intent raw = Some "bomb").
  { unfold resolve_intent.
    rewrite (existsb_contains_false refuses raw Hrefuse).
    rewrite move_map_keys.
    rewrite !scan_moves_miss
      by (apply existsb_contains_false; intros k; now apply Hother).
    apply scan_moves_hit; [|discriminate].
    now apply existsb_contains_true. }
  split; [exact E|].
  intros. now rewrite mock_intent, raw_input_some.
Qed.

Lemma no_occurrence (keys : list string) (raw : string) :
  existsb (fun k => contains k (lower raw)) keys = false ->
  forall k, In k keys -> ~ occurs_ci k raw.
Proof.
  intros E k Hin Hocc.
  rewrite (existsb_contains_true keys raw) in E; [discriminate|].
  now exists k.
Qed.

Lemma bomb_synonym_resolves_to_bomb_witness :
  resolve_intent "Nuke 'em" = Some "bomb".
Proof.
  refine (proj1 (bomb_synonym_resolves_to_bomb "Nuke 'em" _ _ _)).
  - exists "nuke". split; [simpl; tauto|].
    exists "", "Nuke", " 'em". split; reflexivity.
  - apply no_occurrence. reflexivity.
  - intros m k Hm. destruct m; [| | |congruence];
      apply no_occurrence; reflexivity.
Defined.

(** The added condition cannot be dropped: a synonym of rock, paper or
    scissors anywhere in the input keeps the resolver from answering
    bomb. *)
Lemma earlier_category_wins (raw : string) (m : MoveCategory) (k : string) :
  m <> Bomb -> In k (synonyms m) -> occurs_ci k raw ->
  resolve_intent raw <> Some "bomb".
Proof.
  intros Hm Hin Hocc.
  assert (Hhit : existsb (fun k => contains k (lower raw)) (synonyms m) = true)
    by (apply existsb_contains_true; now exists k).
  unfold resolve_intent.
  destruct (existsb _ refuses); [discriminate|].
  rewrite move_map_keys.
  destruct (existsb (fun k => contains k (lower raw)) (synonyms Rock)) eqn:E1.
  { rewrite scan_moves_hit; [discriminate | exact E1 | discriminate]. }
  rewrite (scan_moves_miss _ _ _ _ E1).
  destruct (existsb (fun k => contains k (lower raw)) (synonyms Paper)) eqn:E2.
  { rewrite scan_moves_hit; [discriminate | exact E2 | discriminate]. }
  rewrite (scan_moves_miss _ _ _ _ E2).
  destruct (existsb (fun k => contains k (lower raw)) (synonyms Scissors))
    eqn:E3.
  { rewrite scan_moves_hit; [discriminate | exact E3 | discriminate]. }
  destruct m; congruence.
Qed.

(** ** Validation *)

Lemma move_name_bomb (m : MoveCategory) :
  String.eqb (move_name m) "bomb" = true <-> m = Bomb.
Proof.
  destruct m; simpl; split; congruence.
Qed.

(** C8. For every resolved move (a category or null) and every bomb-used
    flag the validator's status is exactly one of UNCLEAR, INVALID and
    VALID: UNCLEAR exactly for a null move, INVALID exactly for bomb with
    the bomb already used, VALID exactly for every other combination. *)
Theorem validator_statuses (resolved : option MoveCategory)
    (player_bomb_used : bool) :
  let s := Validation.status
             (validate (option_map move_name resolved) player_bomb_used) in
  exactly_one (s = "UNCLEAR") (s = "INVALID") (s = "VALID") /\
  (s = "UNCLEAR" <-> resolved = None) /\
  (s = "INVALID" <-> resolved = Some Bomb /\ player_bomb_used = true) /\
  (s = "VALID" <->
     resolved <> None /\
     ~ (resolved = Some Bomb /\ player_bomb_used = true)).
Proof.
  unfold exactly_one.
  destruct resolved as [m|]; [|cbn; intuition congruence].
  destruct m, player_bomb_used; cbn; intuition congruence.
Qed.

(** The validator inside the mock judge is [validate] applied to the
    resolved intent and player 2's flag, and the resolved intent is a
    category or null. *)
Lemma mock_validator system_prompt ctx :
  exists resolved : option MoveCategory,
    JudgeDecision.validation (mock_judge_response system_prompt ctx) =
    validate (option_map move_name resolved)
             (GameContext.player2_bomb_used ctx).
Proof.
  destruct (resolve_intent_category (raw_input ctx)) as [r Hr].
  exists r. now rewrite mock_validation, Hr.
Qed.

(** ** The outcome of a round *)

Create HintDb rps.
#[local] Hint Constructors beats_rel outcome_spec : rps.
#[local] Hint Extern 1 (_ <> _) => discriminate : rps.

Lemma outcome_spec_functional p1 p2 w w' :
  outcome_spec p1 p2 w -> outcome_spec p1 p2 w' -> w = w'.
Proof.
  intros H H'.
  destruct H; inversion H'; subst; try reflexivity; try congruence;
    repeat match goal with
           | B : beats_rel _ _ |- _ => inversion B; clear B; subst
           end;
    congruence.
Qed.

(** C4. On the four categories the outcome resolver's winner is the one
    the table prescribes (draw for equal moves, bomb vs bomb included;
    player1 for bomb against a non-bomb; player2 for a non-bomb against
    bomb; otherwise the winner of the cycle rock > scissors > paper >
    rock), the table prescribes no other, and the explanation is never
    that of the defensive unexpected-input branch. *)
Theorem outcome_resolver_table (p1 p2 : MoveCategory) :
  let r := decide_round (Some (move_name p1)) (Some (move_name p2)) in
  exists w,
    fst r = Some w /\
    outcome_spec p1 p2 w /\
    (forall w', outcome_spec p1 p2 w' -> w' = w) /\
    snd r <> "No clear winner (unexpected input).".
Proof.
  cbv zeta.
  assert (H : exists w,
             fst (decide_round (Some (move_name p1)) (Some (move_name p2)))
             = Some w /\ outcome_spec p1 p2 w /\
             snd (decide_round (Some (move_name p1)) (Some (move_name p2)))
             <> "No clear winner (unexpected input).").
  { destruct p1, p2; cbn; eexists; (split; [reflexivity|]);
      (split; [auto with rps | discriminate]). }
  destruct H as (w & Hw & Hspec & Hexpl).
  exists w. repeat split; auto.
  intros w' H'. exact (outcome_spec_functional _ _ _ _ H' Hspec).
Qed.

(** In a VALID round the mock judge reports the resolver's winner. *)
Lemma mock_valid_round_winner system_prompt ctx gl :
  Validation.status
    (JudgeDecision.validation (mock_judge_response system_prompt ctx))
  = "VALID" ->
  JudgeDecision.game_logic (mock_judge_response system_prompt ctx) = Present gl ->
  GameLogic.round_winner gl =
  fst (decide_round (GameContext.player1_move ctx)
                    (resolve_intent (raw_input ctx))).
Proof.
  rewrite mock_validation, mock_game_logic. cbv zeta.
  intros -> E. injection E as <-. reflexivity.
Qed.

(** ** The [game_logic] section of rounds that were not accepted *)

Lemma validate_not_valid (mv : option string) (used : bool) :
  Validation.status (validate mv used) <> "VALID" ->
  String.eqb (Validation.status (validate mv used)) "VALID" = false /\
  (Validation.status (validate mv used) = "UNCLEAR" /\ mv = None \/
   Validation.status (validate mv used) = "INVALID" /\ mv = Some "bomb").
Proof.
  unfold validate. destruct mv as [m|]; [|cbn; auto].
  destruct (String.eqb_spec m "bomb") as [->|]; destruct used; cbn;
    intros H; try congruence; auto.
Qed.

Lemma mock_game_logic_not_valid system_prompt ctx :
  Validation.status
    (JudgeDecision.validation (mock_judge_response system_prompt ctx))
  <> "VALID" ->
  JudgeDecision.game_logic (mock_judge_response system_prompt ctx) =
  Present (GameLogic.mk (GameContext.player1_move ctx)
          (resolve_intent (raw_input ctx)) None
          (Some "No winner determined.")).
Proof.
  rewrite mock_validation, mock_game_logic.
  intros H. apply validate_not_valid in H as [E _].
  cbv zeta. now rewrite E.
Qed.

(** C2, as stated, fails: a second bomb from player 2 against rock is
    INVALID, and the decision still carries a [game_logic] section whose
    [player1_move] is rock and whose [player2_move] is bomb. *)
Lemma game_logic_blank_counterexample :
  ~ (forall system_prompt ctx,
       Validation.status
         (JudgeDecision.validation (mock_judge_response system_prompt ctx))
       <> "VALID" ->
       game_logic_blank (mock_judge_response system_prompt ctx)).
Proof.
  intros H.
  specialize (H "" (GameContext.mk 2 (Some "rock") (Some "bomb") false true)).
  assert (E : JudgeDecision.game_logic
                (mock_judge_response ""
                   (GameContext.mk 2 (Some "rock") (Some "bomb") false true))
              = Present (GameLogic.mk (Some "rock") (Some "bomb") None
                        (Some "No winner determined.")))
    by reflexivity.
  unfold game_logic_blank in H. rewrite E in H.
  assert (S : Validation.status
                (JudgeDecision.validation
                   (mock_judge_response ""
                      (GameContext.mk 2 (Some "rock") (Some "bomb") false true)))
              = "INVALID") by reflexivity.
  rewrite S in H.
  destruct H as [H _]; [discriminate | discriminate H].
Qed.

(** C2, amended. In every round whose status is not VALID the decision
    still carries a [game_logic] section: its [round_winner] is null and
    its explanation is the placeholder "No winner determined.", while
    [player1_move] repeats the caller's move and [player2_move] repeats the
    resolved move (null when UNCLEAR, bomb when INVALID). *)
Theorem rejected_round_game_logic (system_prompt : string)
    (ctx : GameContext.t) :
  let d := mock_judge_response system_prompt ctx in
  Validation.status (JudgeDecision.validation d) <> "VALID" ->
  exists player2_move,
    JudgeDecision.game_logic d =
      Present (GameLogic.mk (GameContext.player1_move ctx) player2_move None
              (Some "No winner determined.")) /\
    player2_move =
      IntentUnderstanding.move_understood
        (JudgeDecision.intent_understanding d) /\
    (Validation.status (JudgeDecision.validation d) = "UNCLEAR"
       /\ player2_move = None
     \/ Validation.status (JudgeDecision.validation d) = "INVALID"
       /\ player2_move = Some "bomb").
Proof.
  cbv zeta. intros H.
  exists (resolve_intent (raw_input ctx)).
  split; [now apply mock_game_logic_not_valid|].
  rewrite mock_intent. split; [reflexivity|].
  rewrite mock_validation in *. now apply validate_not_valid in H as [_ Hcase].
Qed.

Lemma rejected_round_game_logic_witness :
  exists player2_move,
    JudgeDecision.game_logic
      (mock_judge_response ""
         (GameContext.mk 2 (Some "rock") (Some "BOOM!") false true)) =
      Present (GameLogic.mk (Some "rock") player2_move None
              (Some "No winner determined.")) /\
    player2_move = Some "bomb".
Proof.
  destruct (rejected_round_game_logic ""
              (GameContext.mk 2 (Some "rock") (Some "BOOM!") false true))
    as (p2 & Hgl & Hp2 & _).
  - vm_compute. discriminate.
  - exists p2. split; [exact Hgl|]. rewrite Hp2. reflexivity.
Defined.

(** A round winner is reported only for VALID rounds. *)
Lemma round_winner_only_when_valid system_prompt ctx gl w :
  JudgeDecision.game_logic (mock_judge_response system_prompt ctx) = Present gl ->
  GameLogic.round_winner gl = Some w ->
  Validation.status
    (JudgeDecision.validation (mock_judge_response system_prompt ctx))
  = "VALID".
Proof.
  intros Hgl Hw.
  destruct (String.eqb_spec
              (Validation.status
                 (JudgeDecision.validation
                    (mock_judge_response system_prompt ctx))) "VALID")
    as [E|N]; [exact E|].
  rewrite (mock_game_logic_not_valid system_prompt ctx N) in Hgl. injection Hgl as <-. discriminate Hw.
Qed.

(** ** State updates and their commitment *)

(** C3. In every round context the deterministic fallback judge reports
    as [state_update.player1_bomb_used] the flag the caller supplied,
    whatever the moves and the validation status. *)
Theorem player1_flag_copied (system_prompt : string) (ctx : GameContext.t) :
  StateUpdate.player1_bomb_used
    (JudgeDecision.state_update (mock_judge_response system_prompt ctx))
  = GameContext.player1_bomb_used ctx.
Proof.
  now rewrite mock_state_update.
Qed.

(** Player 1 plays bomb in a VALID round and wins it; the reported flag
    is still the supplied [false]. *)
Example player1_bomb_not_inferred :
  let d := mock_judge_response ""
             (GameContext.mk 1 (Some "bomb") (Some "rock") false false) in
  Validation.status (JudgeDecision.validation d) = "VALID" /\
  entry_map GameLogic.round_winner (JudgeDecision.game_logic d)
    = Some (Some "player1") /\
  StateUpdate.player1_bomb_used (JudgeDecision.state_update d) = false.
Proof. repeat split. Qed.

Lemma judge_fallback client system_prompt ctx :
  falls_back client ->
  judge client system_prompt ctx
  = Some (mock_judge_response system_prompt ctx).
Proof.
  destruct client as [c|]; cbn; intros H; [now rewrite H | reflexivity].
Qed.

Lemma play_round_fallback client system_prompt gs inp p1 :
  falls_back client ->
  play_round client system_prompt gs inp p1 =
  let d := mock_judge_response system_prompt (build_context gs inp p1) in
  Some (commit gs d, d).
Proof.
  intros H. unfold play_round. now rewrite judge_fallback.
Qed.

(** Whoever judged, a decision that was not accepted leaves both flags as
    they were. *)
Lemma commit_not_accepted gs d who :
  FinalResult.move_accepted (JudgeDecision.final_result d) = false ->
  bomb_used who (commit gs d) = bomb_used who gs.
Proof.
  intros H. unfold commit. rewrite H. now destruct who.
Qed.

Lemma play_round_not_accepted client system_prompt gs inp p1 gs' d who :
  play_round client system_prompt gs inp p1 = Some (gs', d) ->
  FinalResult.move_accepted (JudgeDecision.final_result d) = false ->
  bomb_used who gs' = bomb_used who gs.
Proof.
  unfold play_round. destruct (judge _ _ _) as [d0|]; [|discriminate].
  intros E H. injection E as <- <-. now apply commit_not_accepted.
Qed.

(** C5. In fallback mode, a round whose validation status is not VALID
    leaves the resource state as it was: the mock judge's [state_update]
    repeats both prior flags, the move is not accepted, and [play_round]
    returns with both flags of the game state unchanged. *)
Theorem rejected_round_keeps_flags (client : option Client)
    (system_prompt : string) (gs : GameState.t) (player2_input : string)
    (player1_move : option string) :
  let d := mock_judge_response system_prompt
             (build_context gs player2_input player1_move) in
  falls_back client ->
  Validation.status (JudgeDecision.validation d) <> "VALID" ->
  StateUpdate.player1_bomb_used (JudgeDecision.state_update d)
    = GameState.player1_bomb_used gs /\
  StateUpdate.player2_bomb_used (JudgeDecision.state_update d)
    = GameState.player2_bomb_used gs /\
  FinalResult.move_accepted (JudgeDecision.final_result d) = false /\
  exists gs',
    play_round client system_prompt gs player2_input player1_move
      = Some (gs', d) /\
    GameState.player1_bomb_used gs' = GameState.player1_bomb_used gs /\
    GameState.player2_bomb_used gs' = GameState.player2_bomb_used gs.
Proof.
  cbv zeta. intros Hfb Hst.
  rewrite mock_validation in Hst.
  apply validate_not_valid in Hst as [E _].
  assert (Hacc : FinalResult.move_accepted
                   (JudgeDecision.final_result
                      (mock_judge_response system_prompt
                         (build_context gs player2_input player1_move)))
                 = false)
    by now rewrite mock_move_accepted.
  rewrite mock_state_update. cbv zeta. rewrite E. cbn.
  repeat split; try exact Hacc.
  rewrite (play_round_fallback _ _ _ _ _ Hfb). cbv zeta.
  eexists. split; [reflexivity|].
  split.
  - exact (commit_not_accepted gs _ Player1 Hacc).
  - exact (commit_not_accepted gs _ Player2 Hacc).
Qed.

Lemma rejected_round_keeps_flags_witness :
  let gs := GameState.mk 2 false true [] in
  exists gs',
    play_round None "" gs "boom" (Some "rock")
      = Some (gs', mock_judge_response ""
                     (build_context gs "boom" (Some "rock"))) /\
    GameState.player1_bomb_used gs' = false /\
    GameState.player2_bomb_used gs' = true.
Proof.
  cbv zeta.
  refine (proj2 (proj2 (proj2
    (rejected_round_keeps_flags None "" (GameState.mk 2 false true [])
       "boom" (Some "rock") _ _)))).
  - exact I.
  - vm_compute. discriminate.
Defined.

(** A round judged by the mock judge never clears a flag. *)
Lemma mock_commit_keeps_flag system_prompt gs inp p1 who :
  bomb_used who gs = true ->
  bomb_used who
    (commit gs (mock_judge_response system_prompt (build_context gs inp p1)))
  = true.
Proof.
  intros H. unfold commit.
  rewrite mock_move_accepted, mock_state_update. cbv zeta.
  destruct who; cbn in *; rewrite H;
    repeat match goal with |- context [if ?b then _ else _] => destruct b end;
    reflexivity.
Qed.

Lemma play_rounds_app client system_prompt gs xs ys :
  play_rounds client system_prompt gs (xs ++ ys) =
  match play_rounds client system_prompt gs xs with
  | None => None
  | Some gs' => play_rounds client system_prompt gs' ys
  end.
Proof.
  revert gs; induction xs as [|[inp p1] xs IH]; intros gs; cbn;
    [reflexivity|].
  destruct (play_round _ _ _ _ _) as [[gs' d]|]; [apply IH | reflexivity].
Qed.

Lemma play_rounds_keep_flag client system_prompt who inputs :
  falls_back client ->
  forall gs, bomb_used who gs = true ->
  exists gs', play_rounds client system_prompt gs inputs = Some gs' /\
              bomb_used who gs' = true.
Proof.
  intros Hfb. induction inputs as [|[inp p1] inputs IH]; intros gs H; cbn.
  - now exists gs.
  - rewrite (play_round_fallback _ _ _ _ _ Hfb). cbv zeta.
    apply IH. now apply mock_commit_keeps_flag.
Qed.

(** C6. In fallback mode, within a run of [play_round] calls on one game
    state (no match reset in between), a bomb-used flag that is true
    after some calls is still true after any further calls, and those
    calls all return. *)
Theorem bomb_flags_monotone (client : option Client) (system_prompt : string)
    (who : Player) (gs0 gs1 : GameState.t)
    (before after : list (string * option string)) :
  falls_back client ->
  play_rounds client system_prompt gs0 before = Some gs1 ->
  bomb_used who gs1 = true ->
  exists gs2,
    play_rounds client system_prompt gs0 (before ++ after) = Some gs2 /\
    bomb_used who gs2 = true.
Proof.
  intros Hfb Hrun Hflag.
  rewrite play_rounds_app, Hrun.
  now apply play_rounds_keep_flag.
Qed.

Lemma bomb_flags_monotone_witness :
  exists gs2,
    play_rounds None "" initialize_game
      ([("bomb", Some "rock")] ++ [("paper", Some "bomb"); ("nuke", Some "rock")])
      = Some gs2 /\
    bomb_used Player2 gs2 = true.
Proof.
  refine (bomb_flags_monotone None "" Player2 initialize_game
            (commit initialize_game
               (mock_judge_response ""
                  (build_context initialize_game "bomb" (Some "rock"))))
            [("bomb", Some "rock")]
            [("paper", Some "bomb"); ("nuke", Some "rock")] _ _ _).
  - exact I.
  - reflexivity.
  - reflexivity.
Defined.

(** ** The match tally and the reset *)

(** On a record whose lookup does not raise, the program's test of the
    looked-up winner is the test of the record's [round_winner] field. *)
Lemma names_winner_lookup (who : string) (rd : JudgeDecision.t)
    (rw : option string) :
  recorded_winner rd = Some rw ->
  py_eq rw (Some who) = names_winner who rd.
Proof.
  unfold recorded_winner, names_winner.
  destruct (JudgeDecision.game_logic rd) as [| |gl]; intros E;
    try discriminate E; injection E as <-; [reflexivity|].
  now destruct (GameLogic.round_winner gl).
Qed.

Lemma names_winner_one (rd : JudgeDecision.t) :
  names_winner "player2" rd = true -> names_winner "player1" rd = false.
Proof.
  unfold names_winner.
  destruct (JudgeDecision.game_logic rd) as [| |gl]; try discriminate.
  destruct (GameLogic.round_winner gl) as [w|]; try discriminate.
  intros H. apply String.eqb_eq in H. now subst w.
Qed.

Lemma null_free_cons (rd : JudgeDecision.t) (rds : list JudgeDecision.t) :
  null_free (rd :: rds) ->
  JudgeDecision.game_logic rd <> Null /\ null_free rds.
Proof.
  intros H. split; [apply H; now left|].
  intros rd' Hin. apply H. now right.
Qed.

Lemma count_rounds_spec (rds : list JudgeDecision.t) (u b d : Z) :
  null_free rds ->
  count_rounds rds u b d =
  Some ((u + rounds_won_by "player2" rds)%Z,
        (b + rounds_won_by "player1" rds)%Z,
        (d + rounds_undecided rds)%Z).
Proof.
  unfold rounds_won_by, rounds_undecided.
  revert u b d; induction rds as [|rd rds IH]; intros u b d Hnf.
  - cbn. now rewrite !Z.add_0_r.
  - apply null_free_cons in Hnf as [Hrd Hnf].
    cbn [count_rounds filter].
    destruct (recorded_winner rd) as [rw|] eqn:E.
    + rewrite (names_winner_lookup "player2" rd rw E),
        (names_winner_lookup "player1" rd rw E).
      pose proof (names_winner_one rd) as Hone.
      destruct (names_winner "player2" rd), (names_winner "player1" rd);
        try (discriminate (Hone eq_refl));
        rewrite (IH _ _ _ Hnf); cbn [negb andb List.length];
        rewrite ?Nat2Z.inj_succ;
        (apply f_equal; apply f_equal2; [apply f_equal2|]; lia).
    + exfalso. unfold recorded_winner in E.
      destruct (JudgeDecision.game_logic rd); congruence.
Qed.

(** The tally raises exactly on a null [game_logic] among the records. *)
Lemma count_rounds_null (rds : list JudgeDecision.t) (u b d : Z) :
  ~ null_free rds -> count_rounds rds u b d = None.
Proof.
  revert u b d; induction rds as [|rd rds IH]; intros u b d Hn.
  - exfalso. apply Hn. intros rd [].
  - cbn [count_rounds]. unfold recorded_winner.
    destruct (JudgeDecision.game_logic rd) as [| |gl] eqn:E;
      [|reflexivity|];
      (assert (Hrest : ~ null_free rds);
       [ intros Hnf; apply Hn; intros rd' [<-|Hin];
         [congruence | now apply Hnf]
       | repeat match goal with
                | |- context [if ?c then _ else _] => destruct c
                end; now apply IH ]).
Qed.




(** The scenario of the specification: winners player2, player2, player1. *)
Example tally_scenario :
  let rd w := JudgeDecision.mk 1 "" (IntentUnderstanding.mk None "")
                (Validation.mk "VALID" "")
                (Present (GameLogic.mk None None (Some w) None))
                (StateUpdate.mk false false (BombsRemaining.mk "1" "1"))
                (FinalResult.mk true "PLAYED" "") in
  tally [rd "player2"; rd "player2"; rd "player1"]
  = Some (MatchSummary.mk 2 1 0 "User wins").
Proof. reflexivity. Qed.

Lemma tally_null_free (rds : list JudgeDecision.t) :
  null_free rds -> exists s, tally rds = Some s.
Proof.
  intros Hnf. unfold tally. rewrite (count_rounds_spec _ _ _ _ Hnf).
  eexists. reflexivity.
Qed.




(** ** The intent resolver, completely *)

Lemma mentions_iff (m : MoveCategory) (raw : string) :
  mentions m raw <->
  existsb (fun k => contains k (lower raw)) (synonyms m) = true.
Proof.
  split; [apply existsb_contains_true|].
  intros H. apply existsb_exists in H as (k & Hin & Hk).
  exists k. split; [exact Hin | now apply occurs_ci_iff].
Qed.

Lemma refused_iff (raw : string) :
  refused raw <-> existsb (fun r => contains r (lower raw)) refuses = true.
Proof.
  split; [apply existsb_contains_true|].
  intros H. apply existsb_exists in H as (k & Hin & Hk).
  exists k. split; [exact Hin | now apply occurs_ci_iff].
Qed.

Lemma resolve_intent_cases (raw : string) :
  let hit m := existsb (fun k => contains k (lower raw)) (synonyms m) in
  resolve_intent raw =
  if existsb (fun r => contains r (lower raw)) refuses then None
  else if hit Rock then Some "rock"
  else if hit Paper then Some "paper"
  else if hit Scissors then Some "scissors"
  else if hit Bomb then Some "bomb"
  else None.
Proof.
  cbv zeta. unfold resolve_intent.
  destruct (existsb _ refuses); [reflexivity|].
  rewrite move_map_keys.
  destruct (existsb _ (synonyms Rock)) eqn:E1.
  { now apply scan_moves_hit. }
  rewrite (scan_moves_miss _ _ _ _ E1).
  destruct (existsb _ (synonyms Paper)) eqn:E2.
  { now apply scan_moves_hit. }
  rewrite (scan_moves_miss _ _ _ _ E2).
  destruct (existsb _ (synonyms Scissors)) eqn:E3.
  { now apply scan_moves_hit. }
  rewrite (scan_moves_miss _ _ _ _ E3).
  destruct (existsb _ (synonyms Bomb)) eqn:E4.
  { now apply scan_moves_hit. }
  now rewrite (scan_moves_miss _ _ _ _ E4).
Qed.

(** X1. The resolver answers with category [m] exactly when the input
    holds no refusal phrase, holds a synonym of [m], and holds no synonym
    of a category scanned before [m] (order rock, paper, scissors, bomb;
    case ignored throughout). *)
Theorem resolve_intent_priority (raw : string) (m : MoveCategory) :
  resolve_intent raw = Some (move_name m) <->
  ~ refused raw /\ mentions m raw /\
  forall m', (rank m' < rank m)%nat -> ~ mentions m' raw.
Proof.
  rewrite resolve_intent_cases. cbv zeta.
  rewrite refused_iff, mentions_iff.
  assert (Hall : forall P : MoveCategory -> Prop,
             (forall m', (rank m' < rank m)%nat -> P m') <->
             ((rank Rock <? rank m)%nat = true -> P Rock) /\
             ((rank Paper <? rank m)%nat = true -> P Paper) /\
             ((rank Scissors <? rank m)%nat = true -> P Scissors) /\
             ((rank Bomb <? rank m)%nat = true -> P Bomb)).
  { intros P. split.
    - intros H. repeat split; intros Hlt; apply H; now apply Nat.ltb_lt.
    - intros (H1 & H2 & H3 & H4) [] Hlt; apply Nat.ltb_lt in Hlt; auto. }
  rewrite Hall, !mentions_iff. clear Hall.
  destruct m;
    destruct (existsb _ refuses), (existsb _ (synonyms Rock)),
      (existsb _ (synonyms Paper)), (existsb _ (synonyms Scissors)),
      (existsb _ (synonyms Bomb)); cbn;
    intuition (try congruence).
Qed.

(** X2. The resolver answers null exactly when the input holds a refusal
    phrase or holds no synonym of any category. *)
Theorem resolve_intent_null (raw : string) :
  resolve_intent raw = None <->
  refused raw \/ forall m, ~ mentions m raw.
Proof.
  rewrite resolve_intent_cases. cbv zeta. rewrite refused_iff.
  assert (Hall : (forall m, ~ mentions m raw) <->
                 ~ mentions Rock raw /\ ~ mentions Paper raw /\
                 ~ mentions Scissors raw /\ ~ mentions Bomb raw).
  { split.
    - intros H. repeat split; apply H.
    - intros (H1 & H2 & H3 & H4) []; assumption. }
  rewrite Hall, !mentions_iff. clear Hall.
  destruct (existsb _ refuses), (existsb _ (synonyms Rock)),
    (existsb _ (synonyms Paper)), (existsb _ (synonyms Scissors)),
    (existsb _ (synonyms Bomb)); cbn;
    intuition (try congruence).
Qed.

Lemma lower_char_idempotent (c : ascii) :
  lower_char (lower_char c) = lower_char c.
Proof.
  destruct c as [[] [] [] [] [] [] [] []]; reflexivity.
Qed.

Lemma lower_idempotent (s : string) : lower (lower s) = lower s.
Proof.
  induction s as [|c s IH]; cbn; [reflexivity|].
  now rewrite lower_char_idempotent, IH.
Qed.

(** X3. Letter case never matters to the resolver: an input and its
    lower-cased form are resolved alike, and so are any two inputs with
    the same lower-cased form. *)
Theorem intent_ignores_case (raw raw' : string) :
  lower raw' = lower raw ->
  resolve_intent raw' = resolve_intent raw /\
  resolve_intent (lower raw) = resolve_intent raw.
Proof.
  unfold resolve_intent. intros ->. split; [reflexivity|].
  now rewrite lower_idempotent.
Qed.

Lemma intent_ignores_case_witness :
  resolve_intent "PaPeR, please" = resolve_intent "paper, PLEASE".
Proof.
  refine (proj1 (intent_ignores_case "paper, PLEASE" "PaPeR, please" _)).
  reflexivity.
Defined.

(** ** The assembled decision *)

(** The mock judge's decision, with the winner and the explanation
    written as the two components of one pair. *)
Lemma mock_judge_response_eq (system_prompt : string) (ctx : GameContext.t) :
  mock_judge_response system_prompt ctx =
  let raw := raw_input ctx in
  let p2 := resolve_intent raw in
  let v := validate p2 (GameContext.player2_bomb_used ctx) in
  let valid := String.eqb (Validation.status v) "VALID" in
  let r := if valid then decide_round (GameContext.player1_move ctx) p2
           else (None, "No winner determined.") in
  let p1_bomb := GameContext.player1_bomb_used ctx in
  let p2_bomb := if valid && py_eq p2 (Some "bomb") then true
                 else GameContext.player2_bomb_used ctx in
  JudgeDecision.mk
    (GameContext.round_number ctx) raw
    (IntentUnderstanding.mk p2 "Matched keywords heuristically in mock mode.")
    v
    (Present (GameLogic.mk (GameContext.player1_move ctx) p2
             (fst r) (Some (snd r))))
    (StateUpdate.mk p1_bomb p2_bomb
       (BombsRemaining.mk (if p1_bomb then "0" else "1")
                          (if p2_bomb then "0" else "1")))
    (FinalResult.mk valid
       (if valid then "PLAYED"
        else if String.eqb (Validation.status v) "INVALID" then "REJECTED"
        else "UNCLEAR_MOVE")
       ("(MOCK) " ++ (if valid then "Move accepted."
                      else Validation.reason v))).
Proof.
  unfold mock_judge_response. cbv zeta.
  destruct (if String.eqb _ "VALID" then _ else _) as [w e].
  cbn [fst snd]. now destruct (validate _ _).
Qed.

(** X4. A round context whose [player2_move] is missing, null or empty is
    judged on the empty text: the decision echoes "" as raw input, the
    intent is null, the status UNCLEAR, the action UNCLEAR_MOVE, the move
    is not accepted and both reported flags are the supplied ones. *)
Theorem empty_input_is_unclear (system_prompt : string)
    (ctx : GameContext.t) :
  GameContext.player2_move ctx = None
  \/ GameContext.player2_move ctx = Some "" ->
  let d := mock_judge_response system_prompt ctx in
  JudgeDecision.player2_raw_input d = "" /\
  IntentUnderstanding.move_understood (JudgeDecision.intent_understanding d)
    = None /\
  Validation.status (JudgeDecision.validation d) = "UNCLEAR" /\
  FinalResult.action (JudgeDecision.final_result d) = "UNCLEAR_MOVE" /\
  FinalResult.move_accepted (JudgeDecision.final_result d) = false /\
  StateUpdate.player1_bomb_used (JudgeDecision.state_update d)
    = GameContext.player1_bomb_used ctx /\
  StateUpdate.player2_bomb_used (JudgeDecision.state_update d)
    = GameContext.player2_bomb_used ctx.
Proof.
  intros H. cbv zeta. rewrite mock_judge_response_eq.
  assert (E : raw_input ctx = "")
    by (unfold raw_input; destruct H as [-> | ->]; reflexivity).
  cbv zeta. rewrite E. cbn. repeat split.
Qed.

Lemma empty_input_is_unclear_witness :
  Validation.status
    (JudgeDecision.validation
       (mock_judge_response "" (GameContext.mk 1 (Some "rock") None false true)))
  = "UNCLEAR".
Proof.
  refine (proj1 (proj2 (proj2
    (empty_input_is_unclear ""
       (GameContext.mk 1 (Some "rock") None false true) _)))).
  left. reflexivity.
Defined.

(** X5. Every decision of the mock judge is one of three complete rows:
    VALID, accepted, PLAYED, "(MOCK) Move accepted.", with a category as
    intent (and an unused bomb if that category is bomb); or INVALID, not
    accepted, REJECTED, the bomb-already-used message, intent bomb and
    player 2's flag already set; or UNCLEAR, not accepted, UNCLEAR_MOVE,
    the could-not-determine message and a null intent. *)
Theorem decision_rows (system_prompt : string) (ctx : GameContext.t) :
  let d := mock_judge_response system_prompt ctx in
  let st := Validation.status (JudgeDecision.validation d) in
  let acc := FinalResult.move_accepted (JudgeDecision.final_result d) in
  let act := FinalResult.action (JudgeDecision.final_result d) in
  let msg := FinalResult.player_message (JudgeDecision.final_result d) in
  let mu := IntentUnderstanding.move_understood
              (JudgeDecision.intent_understanding d) in
  (st = "VALID" /\ acc = true /\ act = "PLAYED" /\
   msg = "(MOCK) Move accepted." /\
   exists m, mu = Some (move_name m) /\
             (m <> Bomb \/ GameContext.player2_bomb_used ctx = false))
  \/
  (st = "INVALID" /\ acc = false /\ act = "REJECTED" /\
   msg = "(MOCK) Bomb already used by player 2." /\
   mu = Some "bomb" /\ GameContext.player2_bomb_used ctx = true)
  \/
  (st = "UNCLEAR" /\ acc = false /\ act = "UNCLEAR_MOVE" /\
   msg = "(MOCK) Could not determine move from input." /\ mu = None).
Proof.
  cbv zeta. rewrite mock_judge_response_eq. cbv zeta.
  destruct (resolve_intent_category (raw_input ctx)) as [[m|] ->].
  - destruct m, (GameContext.player2_bomb_used ctx); cbn;
      first [ left; do 4 (split; [reflexivity|]);
              first [ exists Rock; split; [reflexivity|]
                    | exists Paper; split; [reflexivity|]
                    | exists Scissors; split; [reflexivity|]
                    | exists Bomb; split; [reflexivity|] ];
              first [left; discriminate | right; reflexivity]
            | right; left; do 5 (split; [reflexivity|]); reflexivity ].
  - right; right. cbn. do 4 (split; [reflexivity|]); reflexivity.
Qed.

(** X6. The mock judge reports player 2's flag as set exactly when it was
    supplied set or this round is an accepted bomb, and each
    [bombs_remaining] entry is "0" for a set flag and "1" otherwise. *)
Theorem state_update_coherent (system_prompt : string)
    (ctx : GameContext.t) :
  let d := mock_judge_response system_prompt ctx in
  let su := JudgeDecision.state_update d in
  StateUpdate.player2_bomb_used su =
    GameContext.player2_bomb_used ctx
    || (FinalResult.move_accepted (JudgeDecision.final_result d)
        && py_eq (IntentUnderstanding.move_understood
                    (JudgeDecision.intent_understanding d)) (Some "bomb"))
  /\ BombsRemaining.player1 (StateUpdate.bombs_remaining su)
     = (if StateUpdate.player1_bomb_used su then "0" else "1")
  /\ BombsRemaining.player2 (StateUpdate.bombs_remaining su)
     = (if StateUpdate.player2_bomb_used su then "0" else "1").
Proof.
  cbv zeta. rewrite mock_judge_response_eq. cbv zeta. cbn.
  repeat split.
  destruct (String.eqb _ "VALID" && py_eq _ _),
    (GameContext.player2_bomb_used ctx); reflexivity.
Qed.

(** ** More on the outcome of a round *)

(** X7. Player 1's bomb is never checked against player 1's flag: when
    the opposing move is bomb and player 2's input resolves to another
    category, the round is VALID and player 1 wins it, whatever
    [player1_bomb_used] says, and the reported flag is the supplied
    one. *)
Theorem player1_bomb_never_rejected (system_prompt : string) (rn : Z)
    (raw : string) (f1 f2 : bool) (m : MoveCategory) :
  resolve_intent raw = Some (move_name m) ->
  m <> Bomb ->
  let d := mock_judge_response system_prompt
             (GameContext.mk rn (Some "bomb") (Some raw) f1 f2) in
  Validation.status (JudgeDecision.validation d) = "VALID" /\
  entry_map GameLogic.round_winner (JudgeDecision.game_logic d)
    = Some (Some "player1") /\
  StateUpdate.player1_bomb_used (JudgeDecision.state_update d) = f1.
Proof.
  intros Hm Hnb. cbv zeta. rewrite mock_judge_response_eq. cbv zeta.
  rewrite raw_input_some, Hm.
  destruct m; try congruence; destruct f2; cbn; repeat split.
Qed.

Lemma player1_bomb_never_rejected_witness :
  let d := mock_judge_response ""
             (GameContext.mk 3 (Some "bomb") (Some "Scissors!") true false) in
  Validation.status (JudgeDecision.validation d) = "VALID" /\
  entry_map GameLogic.round_winner (JudgeDecision.game_logic d)
    = Some (Some "player1") /\
  StateUpdate.player1_bomb_used (JudgeDecision.state_update d) = true.
Proof.
  apply (player1_bomb_never_rejected "" 3 "Scissors!" true false Scissors).
  - reflexivity.
  - discriminate.
Defined.

Lemma beats_text_differs (a b : string) :
  a ++ " beats " ++ b <> "Both players used bomb. Draw.".
Proof.
  intros E.
  assert (H : contains " beats " "Both players used bomb. Draw." = true)
    by (apply contains_iff; exists a, b; now rewrite E).
  vm_compute in H. discriminate H.
Qed.

(** X8. The branch for bomb against bomb is dead: whatever the two moves
    (any strings or null), the explanation is never "Both players used
    bomb. Draw."; bomb against bomb is a draw explained by the
    equal-moves branch. *)
Theorem both_bombs_branch_dead (p1 p2 : option string) :
  snd (decide_round p1 p2) <> "Both players used bomb. Draw." /\
  decide_round (Some "bomb") (Some "bomb")
    = (Some "draw", "Both players played bomb. It's a draw.").
Proof.
  split; [|reflexivity].
  unfold decide_round.
  destruct (py_eq p1 p2) eqn:E; [cbn; discriminate|].
  destruct (py_eq p1 (Some "bomb")) eqn:E1.
  - destruct (py_eq p2 (Some "bomb")) eqn:E2; [|cbn; discriminate].
    exfalso.
    destruct p1 as [a|], p2 as [b|]; try discriminate.
    cbn in E, E1, E2. apply String.eqb_eq in E1, E2. subst.
    discriminate E.
  - cbn [andb].
    destruct (py_eq p2 (Some "bomb")); [cbn; discriminate|].
    destruct (py_eq (dict_get beats p1) p2);
      [cbn [snd]; apply beats_text_differs|].
    destruct (py_eq (dict_get beats p2) p1);
      [cbn [snd]; apply beats_text_differs | cbn; discriminate].
Qed.

Lemma py_eq_sym (a b : option string) : py_eq a b = py_eq b a.
Proof.
  destruct a, b; cbn; try reflexivity. apply String.eqb_sym.
Qed.

Lemma py_eq_false (a b : option string) : a <> b -> py_eq a b = false.
Proof.
  destruct a as [x|], b as [y|]; cbn; intros H; try reflexivity.
  - apply String.eqb_neq. congruence.
  - congruence.
Qed.

Lemma dict_get_beats_unknown (p : option string) :
  (forall m, p <> Some (move_name m)) -> dict_get beats p = None.
Proof.
  intros H. unfold beats. cbn [dict_get].
  rewrite (py_eq_false (Some "rock") p)
    by (intros E; apply (H Rock); now rewrite <- E).
  rewrite (py_eq_false (Some "scissors") p)
    by (intros E; apply (H Scissors); now rewrite <- E).
  rewrite (py_eq_false (Some "paper") p)
    by (intros E; apply (H Paper); now rewrite <- E).
  reflexivity.
Qed.

(** X9. When the opposing move is not one of the four categories (null,
    the default of [play_round], included) a category from player 2 is
    judged so: bomb wins for player 2, any other category is a draw with
    the explanation of the unexpected-input branch. *)
Theorem unknown_player1_move (p1 : option string) (m2 : MoveCategory) :
  (forall m, p1 <> Some (move_name m)) ->
  decide_round p1 (Some (move_name m2)) =
  match m2 with
  | Bomb => (Some "player2", "Player2's bomb beats player1's move.")
  | _ => (Some "draw", "No clear winner (unexpected input).")
  end.
Proof.
  intros H. unfold decide_round.
  rewrite (py_eq_false p1 (Some (move_name m2))) by apply H.
  rewrite (py_eq_false p1 (Some "bomb")) by apply (H Bomb).
  cbn [andb].
  rewrite (dict_get_beats_unknown p1 H).
  assert (Hget : forall m w,
             dict_get beats (Some (move_name m)) = Some (move_name w) ->
             py_eq (dict_get beats (Some (move_name m))) p1 = false).
  { intros m w ->. apply py_eq_false. intros E. exact (H w (eq_sym E)). }
  destruct m2.
  - rewrite (Hget Rock Scissors) by reflexivity. reflexivity.
  - rewrite (Hget Paper Rock) by reflexivity. reflexivity.
  - rewrite (Hget Scissors Paper) by reflexivity. reflexivity.
  - reflexivity.
Qed.

Lemma unknown_player1_move_witness :
  decide_round None (Some "paper")
  = (Some "draw", "No clear winner (unexpected input).").
Proof.
  apply (unknown_player1_move None Paper). discriminate.
Defined.

(** X10. The resolver treats the two sides alike: with the two moves
    exchanged (each a category or null) the winner is the other player,
    and a draw stays a draw. *)
Theorem decide_round_swap (p1 p2 : option MoveCategory) :
  fst (decide_round (option_map move_name p2) (option_map move_name p1))
  = swap_winner
      (fst (decide_round (option_map move_name p1)
                         (option_map move_name p2))).
Proof.
  destruct p1 as [[]|], p2 as [[]|]; reflexivity.
Qed.

(** ** Histories, flags and tallies over whole runs *)

Lemma count_rounds_total (rds : list JudgeDecision.t) (u b d u' b' d' : Z) :
  count_rounds rds u b d = Some (u', b', d') ->
  (u' + b' + d' = u + b + d + Z.of_nat (List.length rds))%Z /\
  (u <= u')%Z /\ (b <= b')%Z /\ (d <= d')%Z.
Proof.
  revert u b d; induction rds as [|rd rds IH]; intros u b d H.
  - cbn in H. injection H as <- <- <-. cbn. lia.
  - cbn [count_rounds] in H. cbn [List.length]. rewrite Nat2Z.inj_succ.
    destruct (recorded_winner rd) as [rw|]; [|discriminate H].
    destruct (py_eq rw (Some "player2")).
    + apply IH in H. lia.
    + destruct (py_eq rw (Some "player1")); apply IH in H; lia.
Qed.

Lemma tally_sum (rds : list JudgeDecision.t) (s : MatchSummary.t) :
  tally rds = Some s ->
  (MatchSummary.user_wins s + MatchSummary.bot_wins s + MatchSummary.draws s
   = Z.of_nat (List.length rds))%Z /\
  (0 <= MatchSummary.user_wins s)%Z /\
  (0 <= MatchSummary.bot_wins s)%Z /\
  (0 <= MatchSummary.draws s)%Z.
Proof.
  unfold tally.
  destruct (count_rounds rds 0 0 0) as [[[u b] d]|] eqn:E; [|discriminate].
  intros H. injection H as <-. cbn.
  apply count_rounds_total in E. lia.
Qed.

(** X11. The tally loses no round and counts none twice: on records none
    of which has a null [game_logic] entry it returns, and its three
    counters are non-negative and add up to the number of records. *)
Theorem tally_total (rds : list JudgeDecision.t) :
  null_free rds ->
  exists s,
    tally rds = Some s /\
    (MatchSummary.user_wins s + MatchSummary.bot_wins s
     + MatchSummary.draws s = Z.of_nat (List.length rds))%Z /\
    (0 <= MatchSummary.user_wins s)%Z /\
    (0 <= MatchSummary.bot_wins s)%Z /\
    (0 <= MatchSummary.draws s)%Z.
Proof.
  intros Hnf. destruct (tally_null_free rds Hnf) as [s E].
  exists s. split; [exact E | exact (tally_sum rds s E)].
Qed.

Lemma tally_total_witness :
  let d := mock_judge_response ""
             (GameContext.mk 1 (Some "rock") (Some "paper") false false) in
  exists s,
    tally [d; d] = Some s /\
    (MatchSummary.user_wins s + MatchSummary.bot_wins s
     + MatchSummary.draws s = 2)%Z.
Proof.
  cbv zeta.
  match goal with
  | |- exists s, tally ?l = _ /\ _ =>
      destruct (tally_total l) as (s & E & Hsum & _)
  end.
  - intros rd [<-|[<-|[]]]; discriminate.
  - exists s. split; [exact E | exact Hsum].
Defined.

Lemma play_round_history client system_prompt gs inp p1 gs' d :
  play_round client system_prompt gs inp p1 = Some (gs', d) ->
  GameState.rounds gs' = (GameState.rounds gs ++ [d])%list /\
  GameState.round_number gs' = GameState.round_number gs.
Proof.
  unfold play_round. destruct (judge _ _ _) as [d0|]; [|discriminate].
  intros E. injection E as <- <-. split; reflexivity.
Qed.

(** X12. Whoever judges, a run of [play_round] calls only ever appends to
    the history: the old records stay in place, one record is added per
    call (accepted or not) and the round number is left alone. *)
Theorem history_only_grows (client : option Client) (system_prompt : string)
    (inputs : list (string * option string)) (gs gs' : GameState.t) :
  play_rounds client system_prompt gs inputs = Some gs' ->
  exists added,
    GameState.rounds gs' = (GameState.rounds gs ++ added)%list /\
    List.length added = List.length inputs /\
    GameState.round_number gs' = GameState.round_number gs.
Proof.
  revert gs; induction inputs as [|[inp p1] inputs IH]; intros gs H.
  - injection H as <-. exists []. now rewrite app_nil_r.
  - cbn in H.
    destruct (play_round _ _ _ _ _) as [[gs1 d]|] eqn:E; [|discriminate].
    destruct (play_round_history _ _ _ _ _ _ _ E) as [Hr Hn].
    destruct (IH _ H) as (added & Ha & Hl & Hrn).
    exists (d :: added). rewrite Ha, Hr, <- app_assoc. cbn.
    repeat split; congruence.
Qed.

Lemma history_only_grows_witness :
  exists added,
    GameState.rounds
      (commit initialize_game
         (mock_judge_response ""
            (build_context initialize_game "what?" (Some "rock"))))
    = (GameState.rounds initialize_game ++ added)%list /\
    List.length added = 1%nat.
Proof.
  destruct (history_only_grows None "" [("what?", Some "rock")]
              initialize_game
              (commit initialize_game
                 (mock_judge_response ""
                    (build_context initialize_game "what?" (Some "rock"))))
              eq_refl) as (added & Ha & Hl & _).
  exists added. split; [exact Ha | exact Hl].
Defined.

Lemma accepted_bombs_app (rds : list JudgeDecision.t) (d : JudgeDecision.t) :
  accepted_bombs (rds ++ [d]) =
  (accepted_bombs rds +
   if FinalResult.move_accepted (JudgeDecision.final_result d)
      && py_eq (IntentUnderstanding.move_understood
                  (JudgeDecision.intent_understanding d)) (Some "bomb")
   then 1 else 0)%nat.
Proof.
  unfold accepted_bombs. rewrite filter_app, length_app. cbn [filter].
  now destruct (_ && _).
Qed.

(** One round of the mock judge keeps the count of accepted bombs equal
    to player 2's flag. *)
Lemma mock_commit_bomb_count system_prompt gs inp p1 :
  accepted_bombs (GameState.rounds gs)
    = (if GameState.player2_bomb_used gs then 1 else 0)%nat ->
  let gs' := commit gs (mock_judge_response system_prompt
                          (build_context gs inp p1)) in
  accepted_bombs (GameState.rounds gs')
    = (if GameState.player2_bomb_used gs' then 1 else 0)%nat.
Proof.
  intros H. cbv zeta. unfold commit. cbn [GameState.rounds GameState.player2_bomb_used].
  rewrite accepted_bombs_app, H.
  rewrite mock_judge_response_eq. cbv zeta.
  unfold build_context. rewrite raw_input_some.
  cbn [GameContext.player2_bomb_used GameContext.player1_bomb_used
       GameContext.player1_move GameContext.round_number].
  destruct (resolve_intent_category inp) as [[m|] ->].
  - destruct m, (GameState.player2_bomb_used gs); reflexivity.
  - destruct (GameState.player2_bomb_used gs); reflexivity.
Qed.

Lemma play_rounds_bomb_count client system_prompt inputs :
  falls_back client ->
  forall gs,
    accepted_bombs (GameState.rounds gs)
      = (if GameState.player2_bomb_used gs then 1 else 0)%nat ->
    exists gs',
      play_rounds client system_prompt gs inputs = Some gs' /\
      accepted_bombs (GameState.rounds gs')
        = (if GameState.player2_bomb_used gs' then 1 else 0)%nat.
Proof.
  intros Hfb. induction inputs as [|[inp p1] inputs IH]; intros gs H; cbn.
  - now exists gs.
  - rewrite (play_round_fallback _ _ _ _ _ Hfb). cbv zeta.
    apply IH. now apply mock_commit_bomb_count.
Qed.

(** X13. In fallback mode a match accepts player 2's bomb at most once:
    after any run of rounds from a fresh game state, the history holds
    one accepted bomb if player 2's flag is set and none otherwise. *)
Theorem bomb_accepted_at_most_once (client : option Client)
    (system_prompt : string) (inputs : list (string * option string)) :
  falls_back client ->
  exists gs',
    play_rounds client system_prompt initialize_game inputs = Some gs' /\
    accepted_bombs (GameState.rounds gs')
      = (if GameState.player2_bomb_used gs' then 1 else 0)%nat /\
    (accepted_bombs (GameState.rounds gs') <= 1)%nat.
Proof.
  intros Hfb.
  destruct (play_rounds_bomb_count client system_prompt inputs Hfb
              initialize_game eq_refl) as (gs' & Hrun & Hcount).
  exists gs'. repeat split; try assumption.
  rewrite Hcount. destruct (GameState.player2_bomb_used gs'); lia.
Qed.

Lemma bomb_accepted_at_most_once_witness :
  exists gs',
    play_rounds None "" initialize_game
      [("bomb", Some "rock"); ("BOOM", Some "paper"); ("nuke", Some "bomb")]
      = Some gs' /\
    (accepted_bombs (GameState.rounds gs') <= 1)%nat.
Proof.
  destruct (bomb_accepted_at_most_once None ""
              [("bomb", Some "rock"); ("BOOM", Some "paper");
               ("nuke", Some "bomb")] I) as (gs' & Hrun & _ & Hle).
  exists gs'. split; [exact Hrun | exact Hle].
Defined.

(** X14. In fallback mode player 1's flag is never written with a new
    value: after any run of rounds it is what it was, so a fresh match
    never records a bomb of player 1. *)
Theorem player1_flag_constant (client : option Client)
    (system_prompt : string) (inputs : list (string * option string))
    (gs : GameState.t) :
  falls_back client ->
  exists gs',
    play_rounds client system_prompt gs inputs = Some gs' /\
    GameState.player1_bomb_used gs' = GameState.player1_bomb_used gs.
Proof.
  intros Hfb. revert gs.
  induction inputs as [|[inp p1] inputs IH]; intros gs; cbn.
  - now exists gs.
  - rewrite (play_round_fallback _ _ _ _ _ Hfb). cbv zeta.
    destruct (IH (commit gs (mock_judge_response system_prompt
                               (build_context gs inp p1))))
      as (gs' & Hrun & Hflag).
    exists gs'. split; [exact Hrun|]. rewrite Hflag.
    unfold commit. cbn [GameState.player1_bomb_used].
    rewrite mock_state_update. cbv zeta.
    cbn [StateUpdate.player1_bomb_used build_context
         GameContext.player1_bomb_used].
    now destruct (FinalResult.move_accepted _).
Qed.

Lemma player1_flag_constant_witness :
  exists gs',
    play_rounds None "" initialize_game
      [("rock", Some "bomb"); ("paper", Some "bomb")] = Some gs' /\
    GameState.player1_bomb_used gs' = false.
Proof.
  exact (player1_flag_constant None ""
           [("rock", Some "bomb"); ("paper", Some "bomb")]
           initialize_game I).
Defined.

(** ** Printing a decision *)

(** A decision with a [game_logic] object prints to the end; the
    "[GAME LOGIC]" heading is printed exactly when the status is VALID. *)
Lemma print_complete_decision (d : JudgeDecision.t) (gl : GameLogic.t) :
  JudgeDecision.game_logic d = Present gl ->
  snd (print_round_result d) = true /\
  (In (newline ++ "[GAME LOGIC]") (fst (print_round_result d)) <->
   Validation.status (JudgeDecision.validation d) = "VALID") /\
  List.length (fst (print_round_result d)) =
    if String.eqb (Validation.status (JudgeDecision.validation d)) "VALID"
    then 23%nat else 18%nat.
Proof.
  intros Hgl. unfold print_round_result. cbv zeta. rewrite Hgl.
  destruct (String.eqb_spec (Validation.status (JudgeDecision.validation d))
              "VALID") as [E|N]; cbn [fst snd].
  - split; [reflexivity|]. split; [|reflexivity].
    split; [intros _; exact E|].
    intros _. apply in_or_app. right. left. reflexivity.
  - split; [reflexivity|]. split; [|reflexivity].
    split; [|intros E; contradiction].
    intros H. exfalso. cbn in H.
    repeat (destruct H as [H|H]; [discriminate H|]). exact H.
Qed.

(** X15. Every decision of the mock judge prints to the end, with 23
    printed texts for a VALID round and 18 otherwise, and the
    "[GAME LOGIC]" heading is among them exactly when the status is
    VALID. *)
Theorem print_mock_decision (system_prompt : string) (ctx : GameContext.t) :
  let d := mock_judge_response system_prompt ctx in
  snd (print_round_result d) = true /\
  (In (newline ++ "[GAME LOGIC]") (fst (print_round_result d)) <->
   Validation.status (JudgeDecision.validation d) = "VALID") /\
  List.length (fst (print_round_result d)) =
    if String.eqb (Validation.status (JudgeDecision.validation d)) "VALID"
    then 23%nat else 18%nat.
Proof.
  cbv zeta. eapply print_complete_decision. apply mock_game_logic.
Qed.

(** Every decision of the mock judge prints to the end. *)
Lemma print_mock_completes system_prompt ctx :
  snd (print_round_result (mock_judge_response system_prompt ctx)) = true.
Proof.
  eapply print_complete_decision. apply mock_game_logic.
Qed.

(** ** The loop of [main] *)

Lemma lstrip_all_space (s : string) : all_space s = true -> lstrip s = "".
Proof.
  induction s as [|c s IH]; cbn; [reflexivity|].
  destruct (is_space c); cbn; [exact IH | discriminate].
Qed.

(** What a pass does with a line that is forwarded to the judge. *)
Lemma main_pass_forwarded client system_prompt gs line ai :
  forwarded (strip line) ->
  main_pass client system_prompt gs line ai =
  match play_round client system_prompt gs (strip line) (Some ai) with
  | None => Raised gs
  | Some (gs1, d) =>
      if snd (print_round_result d) then
        let gs2 := bump_round gs1 in
        if (List.length (GameState.rounds gs2) mod 3 =? 0)%nat then
          match tally (last3 (GameState.rounds gs2)) with
          | None => Raised gs2
          | Some summary => Played initialize_game d (Some summary)
          end
        else Played gs2 d None
      else Raised gs1
  end.
Proof.
  intros [Hq Hne]. unfold main_pass. cbv zeta. rewrite Hq.
  apply String.eqb_neq in Hne. now rewrite Hne.
Qed.

(** In fallback mode a client whose calls fail judges like no client. *)
Lemma main_pass_fallback client system_prompt gs line ai :
  falls_back client ->
  main_pass client system_prompt gs line ai
  = main_pass None system_prompt gs line ai.
Proof.
  intros Hfb. unfold main_pass.
  rewrite (play_round_fallback client _ _ _ _ Hfb).
  now rewrite (play_round_fallback None _ _ _ _ I).
Qed.

(** X16. A line of white space only (the empty line included) is not
    judged: the pass asks again, whatever the client and the state. *)
Theorem blank_line_reprompts (client : option Client)
    (system_prompt : string) (gs : GameState.t) (line ai_move : string) :
  all_space line = true ->
  main_pass client system_prompt gs line ai_move = Reprompt.
Proof.
  intros H. unfold main_pass, strip. cbv zeta.
  rewrite (lstrip_all_space _ H). reflexivity.
Qed.

Lemma blank_line_reprompts_witness :
  main_pass None "" initialize_game "   " "rock" = Reprompt.
Proof.
  apply blank_line_reprompts. reflexivity.
Defined.

(** X17. A decision from the external judge that is VALID but has no
    [game_logic] section ends the program in the pass that receives it
    (the printing fails, with the record already appended and the flags
    already committed), although the match tally reads such a record as
    a round without winner. *)
Theorem valid_without_game_logic_crashes (client : option Client)
    (system_prompt : string) (gs : GameState.t) (line ai_move : string)
    (d : JudgeDecision.t) :
  forwarded (strip line) ->
  judge client system_prompt
    (build_context gs (strip line) (Some ai_move)) = Some d ->
  Validation.status (JudgeDecision.validation d) = "VALID" ->
  JudgeDecision.game_logic d = Absent ->
  main_pass client system_prompt gs line ai_move = Raised (commit gs d) /\
  recorded_winner d = Some None.
Proof.
  intros Hfw Hj Hst Hgl. split.
  - rewrite (main_pass_forwarded _ _ _ _ _ Hfw).
    unfold play_round. rewrite Hj.
    unfold print_round_result. cbv zeta. rewrite Hst, Hgl. reflexivity.
  - unfold recorded_winner. now rewrite Hgl.
Qed.

Lemma valid_without_game_logic_crashes_witness :
  let d := JudgeDecision.mk 1 "rock" (IntentUnderstanding.mk (Some "rock") "")
             (Validation.mk "VALID" "") Absent
             (StateUpdate.mk false false (BombsRemaining.mk "1" "1"))
             (FinalResult.mk true "PLAYED" "") in
  main_pass (Some (fun _ _ => Replied (Some d))) "" initialize_game
    " rock " "paper" = Raised (commit initialize_game d) /\
  recorded_winner d = Some None.
Proof.
  cbv zeta.
  apply valid_without_game_logic_crashes.
  - split; [reflexivity | discriminate].
  - reflexivity.
  - reflexivity.
  - reflexivity.
Defined.

Lemma last3_short {A : Type} (l : list A) :
  (List.length l <= 3)%nat -> last3 l = l.
Proof.
  intros H. unfold last3.
  replace (List.length l - 3)%nat with 0%nat by lia. reflexivity.
Qed.

Lemma in_last3 {A : Type} (x : A) (l : list A) : In x (last3 l) -> In x l.
Proof.
  unfold last3. generalize (List.length l - 3)%nat as n.
  intros n; revert l; induction n as [|n IH]; intros [|a l] H; cbn in H;
    try exact H; try contradiction.
  right. now apply IH.
Qed.

(** One pass keeps the loop invariant, and a summary it prints is the
    tally of the three records of the match just ended. *)
Lemma main_pass_invariant client system_prompt gs line ai gs' d summary :
  loop_invariant gs ->
  main_pass client system_prompt gs line ai = Played gs' d summary ->
  loop_invariant gs' /\
  forall s, summary = Some s ->
    gs' = initialize_game /\
    tally (GameState.rounds gs ++ [d]) = Some s /\
    List.length (GameState.rounds gs ++ [d]) = 3%nat.
Proof.
  intros [Hrn Hlen] H. unfold main_pass in H. cbv zeta in H.
  destruct (existsb _ _); [discriminate|].
  destruct (String.eqb _ ""); [discriminate|].
  destruct (play_round _ _ _ _ _) as [[gs1 d1]|] eqn:E; [|discriminate].
  destruct (play_round_history _ _ _ _ _ _ _ E) as [Hr Hn].
  destruct (snd (print_round_result d1)); [|discriminate].
  cbn [bump_round GameState.rounds] in H.
  assert (Hl : List.length (GameState.rounds gs1)
               = S (List.length (GameState.rounds gs)))
    by (rewrite Hr, length_app; cbn; lia).
  destruct (Nat.eqb_spec (List.length (GameState.rounds gs1) mod 3) 0)
    as [Hmod|Hmod].
  - destruct (tally (last3 (GameState.rounds gs1))) as [s0|] eqn:Et;
      [|discriminate].
    injection H as <- <- <-. split.
    + split; [reflexivity | cbn; lia].
    + intros s Hs. injection Hs as <-.
      assert (H3 : List.length (GameState.rounds gs1) = 3%nat).
      { rewrite Hl in *.
        destruct (List.length (GameState.rounds gs)) as [|[|[|n]]];
          cbn in Hmod; try discriminate; try lia. }
      rewrite <- Hr. rewrite last3_short in Et by lia. auto.
  - injection H as <- <- <-. split; [|discriminate].
    split; unfold bump_round; cbn [GameState.round_number GameState.rounds].
    + rewrite Hn, Hrn, Hl. lia.
    + rewrite Hl in *.
      destruct (List.length (GameState.rounds gs)) as [|[|[|n]]];
        cbn in Hmod; try congruence; lia.
Qed.

Lemma main_loop_invariant client system_prompt script :
  forall gs, loop_invariant gs ->
  let '(gs', summaries, ended) := main_loop client system_prompt gs script in
  Forall (fun s => (MatchSummary.user_wins s + MatchSummary.bot_wins s
                    + MatchSummary.draws s = 3)%Z) summaries /\
  (ended = Crashed \/ loop_invariant gs').
Proof.
  induction script as [|[line ai] script IH]; intros gs Hinv; cbn.
  - split; [constructor | now right].
  - destruct (main_pass _ _ _ _ _) as [| |gs1|gs1 d summary] eqn:E.
    + split; [constructor | now right].
    + apply IH, Hinv.
    + split; [constructor | now left].
    + destruct (main_pass_invariant _ _ _ _ _ _ _ _ Hinv E) as [Hinv1 Hsum].
      specialize (IH gs1 Hinv1).
      destruct (main_loop _ _ gs1 script) as [[gs' sums] e].
      destruct IH as [Hall Hend]. split; [|exact Hend].
      destruct summary as [s|]; [|exact Hall].
      constructor; [|exact Hall].
      destruct (Hsum s eq_refl) as (_ & Ht & H3).
      apply tally_sum in Ht. rewrite H3 in Ht. lia.
Qed.

(** X18. Whoever judges and whatever is typed, in a run of the loop
    started on a fresh game state every match summary printed accounts
    for exactly three rounds, and unless the run ended in an uncaught
    exception the loop stands at a state whose round number is one more
    than the length of its history, with fewer than three records in the
    history (so the rounds shown are numbered 1 to 3). *)
Theorem main_loop_rounds (client : option Client) (system_prompt : string)
    (script : list (string * string)) :
  let '(gs', summaries, ended) :=
    main_loop client system_prompt initialize_game script in
  Forall (fun s => (MatchSummary.user_wins s + MatchSummary.bot_wins s
                    + MatchSummary.draws s = 3)%Z) summaries /\
  (ended = Crashed \/
   (GameState.round_number gs'
      = (1 + Z.of_nat (List.length (GameState.rounds gs')))%Z /\
    (List.length (GameState.rounds gs') < 3)%nat)).
Proof.
  pose proof (main_loop_invariant client system_prompt script
                initialize_game) as H.
  destruct (main_loop _ _ _ _) as [[gs' sums] e].
  apply H. split; [reflexivity | cbn; lia].
Qed.

(** A run that ends in an uncaught exception stops with the state as the
    failing pass left it: here the third record is in the history, the
    round number is still 3, and no fresh state was made. *)
Example crash_keeps_mutated_state :
  let d := JudgeDecision.mk 3 "rock" (IntentUnderstanding.mk (Some "rock") "")
             (Validation.mk "VALID" "") Absent
             (StateUpdate.mk false false (BombsRemaining.mk "1" "1"))
             (FinalResult.mk true "PLAYED" "") in
  let '(gs', summaries, ended) :=
    main_loop (Some (fun _ ctx =>
                       if (GameContext.round_number ctx =? 3)%Z
                       then Replied (Some d) else ApiFailed))
      "" initialize_game
      [("rock", "paper"); ("paper", "rock"); ("rock", "rock")] in
  ended = Crashed /\ summaries = [] /\
  GameState.round_number gs' = 3%Z /\
  List.length (GameState.rounds gs') = 3%nat.
Proof. vm_compute. repeat split. Qed.

(** A null [game_logic] in the history ends the program at the tally: the
    external judge answers the first line with an UNCLEAR decision whose
    [game_logic] is null, which prints; its calls fail afterwards; at the
    end of the third round the tally raises, after the round number was
    raised to 4 and before any fresh state is made. *)
Example null_game_logic_kills_tally :
  let d := JudgeDecision.mk 1 "hm" (IntentUnderstanding.mk None "")
             (Validation.mk "UNCLEAR" "") Null
             (StateUpdate.mk false false (BombsRemaining.mk "1" "1"))
             (FinalResult.mk false "UNCLEAR_MOVE" "") in
  let '(gs', summaries, ended) :=
    main_loop (Some (fun _ ctx =>
                       if (GameContext.round_number ctx =? 1)%Z
                       then Replied (Some d) else ApiFailed))
      "" initialize_game
      [("hm", "paper"); ("paper", "rock"); ("rock", "rock")] in
  ended = Crashed /\ summaries = [] /\
  GameState.round_number gs' = 4%Z /\
  List.length (GameState.rounds gs') = 3%nat.
Proof. vm_compute. repeat split. Qed.

(** In fallback mode a pass keeps the history free of null [game_logic]
    entries and does not raise. *)
Lemma null_free_snoc (rds : list JudgeDecision.t) (d : JudgeDecision.t) :
  null_free rds -> JudgeDecision.game_logic d <> Null ->
  null_free (rds ++ [d]).
Proof.
  intros Hnf Hd rd Hin. apply in_app_or in Hin as [Hin|[<-|[]]];
    [now apply Hnf | exact Hd].
Qed.

Lemma mock_not_null system_prompt ctx :
  JudgeDecision.game_logic (mock_judge_response system_prompt ctx) <> Null.
Proof.
  rewrite mock_game_logic. discriminate.
Qed.

Lemma main_pass_fallback_safe client system_prompt gs line ai :
  falls_back client ->
  null_free (GameState.rounds gs) ->
  match main_pass client system_prompt gs line ai with
  | Raised _ => False
  | Played gs' _ _ => null_free (GameState.rounds gs')
  | Quit | Reprompt => True
  end.
Proof.
  intros Hfb Hnf. unfold main_pass. cbv zeta.
  destruct (existsb _ _); [exact I|].
  destruct (String.eqb _ ""); [exact I|].
  rewrite (play_round_fallback _ _ _ _ _ Hfb). cbv beta iota zeta.
  rewrite print_mock_completes.
  cbn [bump_round commit GameState.rounds].
  assert (Hnf' : null_free
            (GameState.rounds gs ++
             [mock_judge_response system_prompt
                (build_context gs (strip line) (Some ai))]))
    by (apply null_free_snoc; [exact Hnf | apply mock_not_null]).
  destruct (Nat.eqb _ 0); [|exact Hnf'].
  destruct (tally_null_free (last3
              (GameState.rounds gs ++
               [mock_judge_response system_prompt
                  (build_context gs (strip line) (Some ai))])))
    as [s ->].
  - intros rd Hin. apply Hnf'. now apply in_last3.
  - intros rd [].
Qed.

(** X19. In fallback mode, from a game state whose history holds no null
    [game_logic] entry (the fresh state in particular), the loop never
    ends in a crash: over any script of typed lines it either has been
    quit or waits for more input. *)
Theorem fallback_loop_never_crashes (client : option Client)
    (system_prompt : string) (script : list (string * string))
    (gs : GameState.t) :
  falls_back client ->
  null_free (GameState.rounds gs) ->
  snd (main_loop client system_prompt gs script) <> Crashed.
Proof.
  intros Hfb. revert gs.
  induction script as [|[line ai] script IH]; intros gs Hnf; cbn;
    [discriminate|].
  pose proof (main_pass_fallback_safe client system_prompt gs line ai
                Hfb Hnf) as Hsafe.
  destruct (main_pass _ _ _ _ _) as [| |gs1|gs1 d summary].
  - cbn. discriminate.
  - now apply IH.
  - contradiction.
  - specialize (IH gs1 Hsafe).
    destruct (main_loop _ _ gs1 script) as [[g s] e]. exact IH.
Qed.

Lemma fallback_loop_never_crashes_witness :
  snd (main_loop None "" initialize_game
         [("rock", "paper"); ("", "rock"); ("xyz", "bomb"); ("bomb", "bomb");
          ("quit", "rock")])
  <> Crashed.
Proof.
  apply fallback_loop_never_crashes.
  - exact I.
  - intros rd [].
Defined.

(** A pass that does not end the match keeps every flag that was set, in
    fallback mode. *)
Lemma pass_keeps_flag client system_prompt gs line ai gs' d who :
  falls_back client ->
  main_pass client system_prompt gs line ai = Played gs' d None ->
  bomb_used who gs = true ->
  bomb_used who gs' = true.
Proof.
  intros Hfb Hit Hflag.
  unfold main_pass in Hit. cbv zeta in Hit.
  destruct (existsb _ _); [discriminate|].
  destruct (String.eqb _ ""); [discriminate|].
  rewrite (play_round_fallback _ _ _ _ _ Hfb) in Hit.
  cbv beta iota zeta in Hit. rewrite print_mock_completes in Hit.
  destruct (Nat.eqb _ 0).
  - destruct (tally _); discriminate.
  - injection Hit as <- _.
    pose proof (mock_commit_keeps_flag system_prompt gs (strip line)
                  (Some ai) who Hflag) as H.
    destruct who; exact H.
Qed.

(** ** Code fences around the judge's text *)

Lemma length_append (a b : string) :
  String.length (a ++ b) = (String.length a + String.length b)%nat.
Proof.
  induction a as [|c a IH]; cbn; [reflexivity | now rewrite IH].
Qed.

Lemma append_empty_r (a : string) : a ++ "" = a.
Proof.
  induction a as [|c a IH]; cbn; [reflexivity | now rewrite IH].
Qed.

Lemma drop_append (p s : string) : drop (String.length p) (p ++ s) = s.
Proof.
  induction p as [|c p IH]; cbn; [now destruct s | exact IH].
Qed.

Lemma substring_append (x suf : string) :
  substring 0 (String.length x) (x ++ suf) = x.
Proof.
  induction x as [|c x IH]; cbn; [now destruct suf | now rewrite IH].
Qed.

Lemma drop_last_append (x suf : string) :
  drop_last (String.length suf) (x ++ suf) = x.
Proof.
  unfold drop_last. rewrite length_append.
  replace (String.length x + String.length suf - String.length suf)%nat
    with (String.length x) by lia.
  apply substring_append.
Qed.

Lemma endswith_append (x suf : string) : endswith suf (x ++ suf) = true.
Proof.
  induction x as [|c x IH].
  - cbn [append]. destruct suf; cbn [endswith]; now rewrite String.eqb_refl.
  - cbn [append endswith]. rewrite IH. apply orb_true_r.
Qed.

Lemma endswith_inv (suf s : string) :
  endswith suf s = true -> exists x, s = x ++ suf.
Proof.
  induction s as [|c s IH]; cbn [endswith]; intros H.
  - rewrite orb_false_r in H. apply String.eqb_eq in H. now exists "".
  - apply orb_true_iff in H as [H|H].
    + apply String.eqb_eq in H. now exists "".
    + destruct (IH H) as [x ->]. now exists (String c x).
Qed.

Lemma last_char_append (a b : string) :
  b <> "" -> last_char (a ++ b) = last_char b.
Proof.
  intros Hb. induction a as [|c a IH]; [reflexivity|].
  cbn [append]. cbn [last_char].
  destruct (a ++ b) eqn:E; [|exact IH].
  destruct a; [cbn in E; congruence | discriminate E].
Qed.

Lemma endswith_last_char (s : string) :
  endswith fence s = true -> last_char s = Some "`"%char.
Proof.
  intros H. destruct (endswith_inv _ _ H) as [x ->].
  now rewrite last_char_append.
Qed.

Lemma last_char_all_space (s : string) (c : ascii) :
  all_space s = true -> last_char s = Some c -> is_space c = true.
Proof.
  induction s as [|a s IH]; cbn [all_space last_char]; [discriminate|].
  intros H Hl. apply andb_true_iff in H as [Ha Hs].
  destruct s; [now injection Hl as <- | now apply IH].
Qed.

Lemma prefix_other_char (p : string) (a c : ascii) (s : string) :
  a <> c -> prefix (String a p) (String c s) = false.
Proof.
  intros H. cbn. now destruct (ascii_dec a c).
Qed.

Lemma lstrip_append (ws s : string) (c : ascii) :
  all_space ws = true -> is_space c = false ->
  lstrip (ws ++ String c s) = String c s.
Proof.
  intros Hws Hc. induction ws as [|a ws IH]; cbn.
  - now rewrite Hc.
  - cbn in Hws. apply andb_true_iff in Hws as [Ha Hws].
    rewrite Ha. now apply IH.
Qed.

Lemma rstrip_all_space (ws : string) : all_space ws = true -> rstrip ws = "".
Proof.
  induction ws as [|a ws IH]; cbn; [reflexivity|].
  intros H. apply andb_true_iff in H as [Ha Hws].
  now rewrite (IH Hws), Ha.
Qed.

Lemma rstrip_append (x ws : string) :
  all_space ws = true -> rstrip (x ++ ws) = rstrip x.
Proof.
  intros Hws. induction x as [|c x IH]; cbn.
  - now apply rstrip_all_space.
  - now rewrite IH.
Qed.

Lemma rstrip_clean (x : string) (c : ascii) :
  last_char x = Some c -> is_space c = false -> rstrip x = x.
Proof.
  induction x as [|a x IH]; [discriminate|].
  intros Hl Hc. cbn [rstrip].
  destruct x as [|b x].
  - injection Hl as ->. cbn. now rewrite Hc.
  - rewrite (IH Hl Hc). cbn [String.eqb]. now rewrite andb_false_r.
Qed.

(** White space around a text that begins and ends with other
    characters is all that [strip] removes. *)
Lemma strip_core (ws1 ws2 rest : string) (a z : ascii) :
  all_space ws1 = true -> all_space ws2 = true ->
  is_space a = false ->
  last_char (String a rest) = Some z -> is_space z = false ->
  strip (ws1 ++ String a rest ++ ws2) = String a rest.
Proof.
  intros H1 H2 Ha Hl Hz. unfold strip.
  change (String a rest ++ ws2) with (String a (rest ++ ws2)).
  rewrite (lstrip_append _ _ _ H1 Ha).
  change (String a (rest ++ ws2)) with (String a rest ++ ws2).
  rewrite (rstrip_append _ _ H2).
  exact (rstrip_clean _ _ Hl Hz).
Qed.

Lemma prefix_append_same (p q s : string) :
  prefix (p ++ q) (p ++ s) = prefix q s.
Proof.
  induction p as [|c p IH]; cbn; [reflexivity|].
  destruct (ascii_dec c c); [exact IH | congruence].
Qed.

Lemma prefix_after_space (ws rest p : string) (a b : ascii) :
  all_space ws = true -> is_space b = false -> b <> a ->
  prefix (String b p) (ws ++ String a rest) = false.
Proof.
  intros Hws Hb Hab. destruct ws as [|c ws]; cbn [append].
  - now apply prefix_other_char.
  - apply prefix_other_char. intros ->.
    cbn in Hws. apply andb_true_iff in Hws as [Hc _]. congruence.
Qed.

(** The last character of a text that ends in [z] followed by white
    space only is [z] or a space, never a backtick if [z] is none. *)
Lemma tail_not_backtick (x ws : string) (z : ascii) :
  all_space ws = true -> z <> "`"%char ->
  last_char (x ++ String z ws) <> Some "`"%char.
Proof.
  intros Hws Hz. rewrite last_char_append by discriminate.
  destruct ws as [|c ws]; [cbn; congruence|].
  change (last_char (String z (String c ws)))
    with (last_char (String c ws)).
  intros E. pose proof (last_char_all_space _ _ Hws E) as H.
  discriminate H.
Qed.

(** The two opening tests of [strip_fences] on a text that, after an
    optional opening marker and white space, goes on with a character
    [a] that is no backtick, no "j" and no space. *)
Lemma strip_fences_open (opening ws rest : string) (a : ascii) :
  In opening ["```json"; "```"; ""] ->
  all_space ws = true ->
  is_space a = false -> a <> "`"%char -> a <> "j"%char ->
  strip_fences (opening ++ ws ++ String a rest) =
  let t := ws ++ String a rest in
  if endswith fence t then drop_last 3 t else t.
Proof.
  intros Hop Hws Ha Hbt Hj.
  set (t := ws ++ String a rest).
  assert (Hno : prefix "```" t = false)
    by (apply prefix_after_space; auto).
  assert (S2 : (if prefix "```" t then drop 3 t else t) = t)
    by now rewrite Hno.
  assert (S1 : (let r := if prefix "```json" (opening ++ t)
                         then drop 7 (opening ++ t) else opening ++ t in
                if prefix "```" r then drop 3 r else r) = t).
  { cbv zeta. destruct Hop as [<-|[<-|[<-|[]]]].
    - assert (D7 : drop 7 ("```json" ++ t) = t)
        by exact (drop_append "```json" t).
      rewrite prefix_append, D7. exact S2.
    - assert (E : prefix "```json" ("```" ++ t) = false).
      { exact (eq_trans (prefix_append_same "```" "json" t)
                 (prefix_after_space ws rest "son" a "j"%char Hws
                    eq_refl (not_eq_sym Hj))). }
      rewrite E, prefix_append. exact (drop_append "```" t).
    - cbn [append].
      assert (E : prefix "```json" t = false)
        by (apply prefix_after_space; auto).
      rewrite E. exact S2. }
  unfold strip_fences. cbv zeta in *. rewrite S1. reflexivity.
Qed.

(** X20. A JSON object text, with or without white space around it, comes
    out of the fence handling bare: for an opening marker "```json",
    "```" or none at the very start and a closing marker "```" or none at
    the very end, the text handed to [json.loads] is the object text. *)
Theorem fenced_object_text (opening closing ws1 ws2 inner : string) :
  In opening ["```json"; "```"; ""] ->
  In closing ["```"; ""] ->
  all_space ws1 = true -> all_space ws2 = true ->
  json_text (opening ++ ws1 ++ "{" ++ inner ++ "}" ++ ws2 ++ closing)
  = "{" ++ inner ++ "}".
Proof.
  intros Hop Hcl H1 H2. unfold json_text.
  change ("{" ++ inner ++ "}" ++ ws2 ++ closing)
    with (String "{" (inner ++ "}" ++ ws2 ++ closing)).
  rewrite strip_fences_open; auto; try discriminate. cbv zeta.
  assert (Hcore : forall tl,
             ws1 ++ String "{" (inner ++ "}" ++ tl)
             = (ws1 ++ "{" ++ inner) ++ String "}" tl).
  { intros tl. rewrite !append_assoc. reflexivity. }
  assert (Hlast : last_char (String "{" (inner ++ "}")) = Some "}"%char).
  { change (String "{" (inner ++ "}")) with (("{" ++ inner) ++ "}").
    now rewrite last_char_append. }
  assert (Hstrip : strip (ws1 ++ String "{" (inner ++ "}" ++ ws2))
                   = "{" ++ inner ++ "}").
  { replace (String "{" (inner ++ "}" ++ ws2))
      with (String "{" (inner ++ "}") ++ ws2)
      by (cbn; now rewrite append_assoc).
    now apply (strip_core ws1 ws2 (inner ++ "}") "{" "}"). }
  destruct Hcl as [<-|[<-|[]]].
  - replace (ws1 ++ String "{" (inner ++ "}" ++ ws2 ++ "```"))
      with ((ws1 ++ String "{" (inner ++ "}" ++ ws2)) ++ "```")
      by (rewrite !append_assoc; cbn; now rewrite !append_assoc).
    unfold fence. rewrite endswith_append.
    rewrite (drop_last_append _ "```"). exact Hstrip.
  - rewrite append_empty_r.
    destruct (endswith fence _) eqn:E; [|exact Hstrip].
    exfalso. apply endswith_last_char in E. rewrite Hcore in E.
    now apply (tail_not_backtick _ _ _ H2) in E.
Qed.

Lemma fenced_object_text_witness :
  json_text ("```json" ++ newline ++ "{" ++ "round_number: 1" ++ "}"
             ++ newline ++ "```")
  = "{" ++ "round_number: 1" ++ "}".
Proof.
  apply fenced_object_text.
  - simpl; tauto.
  - simpl; tauto.
  - reflexivity.
  - reflexivity.
Defined.

(** X21. The closing marker is removed only when it is the very end of
    the response: with white space after it (a final newline, say) the
    marker stays, and the text handed to [json.loads] is the object text
    followed by the marker. *)
Theorem trailing_space_keeps_fence (opening ws1 ws2 ws3 inner : string) :
  In opening ["```json"; "```"; ""] ->
  all_space ws1 = true -> all_space ws2 = true -> all_space ws3 = true ->
  ws3 <> "" ->
  json_text (opening ++ ws1 ++ "{" ++ inner ++ "}" ++ ws2 ++ "```" ++ ws3)
  = "{" ++ inner ++ "}" ++ ws2 ++ "```".
Proof.
  intros Hop H1 H2 H3 Hne. unfold json_text.
  change ("{" ++ inner ++ "}" ++ ws2 ++ "```" ++ ws3)
    with (String "{" (inner ++ "}" ++ ws2 ++ "```" ++ ws3)).
  rewrite strip_fences_open; auto; try discriminate. cbv zeta.
  assert (Hsplit : ws1 ++ String "{" (inner ++ "}" ++ ws2 ++ "```" ++ ws3)
                   = ws1 ++ String "{" (inner ++ "}" ++ ws2 ++ "```") ++ ws3).
  { f_equal.
    change (String "{" (inner ++ "}" ++ ws2 ++ "```") ++ ws3)
      with (String "{" ((inner ++ "}" ++ ws2 ++ "```") ++ ws3)).
    f_equal. now rewrite !append_assoc. }
  assert (Hend : endswith fence
                   (ws1 ++ String "{" (inner ++ "}" ++ ws2 ++ "```" ++ ws3))
                 = false).
  { destruct (endswith fence _) eqn:E; [|reflexivity].
    exfalso. apply endswith_last_char in E.
    rewrite Hsplit in E.
    rewrite <- append_assoc, last_char_append in E by exact Hne.
    pose proof (last_char_all_space _ _ H3 E) as H. discriminate H. }
  rewrite Hend, Hsplit.
  apply (strip_core ws1 ws3 (inner ++ "}" ++ ws2 ++ "```") "{" "`");
    auto.
  change (String "{" (inner ++ "}" ++ ws2 ++ "```"))
    with ("{" ++ inner ++ "}" ++ ws2 ++ "```").
  replace ("{" ++ inner ++ "}" ++ ws2 ++ "```")
    with (("{" ++ inner ++ "}" ++ ws2) ++ "```")
    by (now rewrite !append_assoc).
  now rewrite last_char_append.
Qed.

Lemma trailing_space_keeps_fence_witness :
  json_text ("```json" ++ newline ++ "{" ++ "round_number: 1" ++ "}"
             ++ newline ++ "```" ++ newline)
  = "{" ++ "round_number: 1" ++ "}" ++ newline ++ "```".
Proof.
  apply trailing_space_keeps_fence.
  - simpl; tauto.
  - reflexivity.
  - reflexivity.
  - reflexivity.
  - discriminate.
Defined.

(** X22. Whatever the response text, the fence handling removes nothing
    but markers: the text is its result with "", "```", "```json" or
    "```json```" put back in front and "" or "```" put back behind. *)
Theorem strip_fences_removes_markers (response_text : string) :
  exists opening closing,
    response_text = opening ++ strip_fences response_text ++ closing /\
    In opening [""; "```"; "```json"; "```json```"] /\
    In closing [""; "```"].
Proof.
  unfold strip_fences. cbv zeta.
  assert (Hclose : forall t,
             exists closing,
               t = (if endswith "```" t then drop_last 3 t else t)
                   ++ closing /\
               In closing [""; "```"]).
  { intros t. destruct (endswith "```" t) eqn:E.
    - destruct (endswith_inv _ _ E) as [x ->].
      assert (DL : drop_last 3 (x ++ "```") = x)
        by exact (drop_last_append x "```").
      exists "```". rewrite DL.
      split; [reflexivity | simpl; tauto].
    - exists "". rewrite append_empty_r. split; [reflexivity | simpl; tauto]. }
  destruct (prefix "```json" response_text) eqn:E1.
  - destruct (prefix_inv _ _ E1) as [r1 ->].
    assert (D7 : drop 7 ("```json" ++ r1) = r1)
      by exact (drop_append "```json" r1).
    rewrite D7.
    destruct (prefix "```" r1) eqn:E2.
    + destruct (prefix_inv _ _ E2) as [r2 ->].
      assert (D3 : drop 3 ("```" ++ r2) = r2)
        by exact (drop_append "```" r2).
      rewrite D3.
      destruct (Hclose r2) as (closing & Hc & Hin).
      exists "```json```", closing. split; [|split; [simpl; tauto | exact Hin]].
      rewrite Hc at 1. reflexivity.
    + destruct (Hclose r1) as (closing & Hc & Hin).
      exists "```json", closing. split; [|split; [simpl; tauto | exact Hin]].
      rewrite Hc at 1. reflexivity.
  - destruct (prefix "```" response_text) eqn:E2.
    + destruct (prefix_inv _ _ E2) as [r2 ->].
      assert (D3 : drop 3 ("```" ++ r2) = r2)
        by exact (drop_append "```" r2).
      rewrite D3.
      destruct (Hclose r2) as (closing & Hc & Hin).
      exists "```", closing. split; [|split; [simpl; tauto | exact Hin]].
      rewrite Hc at 1. reflexivity.
    + destruct (Hclose response_text) as (closing & Hc & Hin).
      exists "", closing. split; [|split; [simpl; tauto | exact Hin]].
      exact Hc.
Qed.

(** ** Quitting, falling back, and a whole match *)

Lemma space_not_lowered (c : ascii) :
  is_space (lower_char c) = false -> is_space c = false.
Proof.
  destruct c as [[] [] [] [] [] [] [] []]; cbn; intros H;
    first [reflexivity | discriminate H].
Qed.

Lemma lower_first_last (word : string) :
  In (lower word) ["quit"; "exit"; "q"] ->
  exists a rest z,
    word = String a rest /\ is_space a = false /\
    last_char word = Some z /\ is_space z = false.
Proof.
  intros [H|[H|[H|[]]]].
  - destruct word as [|a [|b [|c [|z [|? ?]]]]]; try discriminate H.
    injection H as Ha _ _ Hz.
    exists a, (String b (String c (String z ""))), z.
    repeat split; apply space_not_lowered;
      [rewrite <- Ha | rewrite <- Hz]; reflexivity.
  - destruct word as [|a [|b [|c [|z [|? ?]]]]]; try discriminate H.
    injection H as Ha _ _ Hz.
    exists a, (String b (String c (String z ""))), z.
    repeat split; apply space_not_lowered;
      [rewrite <- Ha | rewrite <- Hz]; reflexivity.
  - destruct word as [|a [|? ?]]; try discriminate H.
    injection H as Ha.
    exists a, "", a.
    repeat split; apply space_not_lowered; rewrite <- Ha; reflexivity.
Qed.

(** X23. A line that is "quit", "exit" or "q" in any mix of letter case,
    with any white space around it, ends the loop at once: nothing is
    judged, the game state is left as it is, and the lines after it are
    not read. *)
Theorem quit_word_ends_loop (client : option Client)
    (system_prompt : string) (gs : GameState.t)
    (ws1 word ws2 ai_move : string) (script : list (string * string)) :
  In (lower word) ["quit"; "exit"; "q"] ->
  all_space ws1 = true -> all_space ws2 = true ->
  main_loop client system_prompt gs
    ((ws1 ++ word ++ ws2, ai_move) :: script)
  = (gs, [], UserQuit).
Proof.
  intros Hw H1 H2.
  destruct (lower_first_last word Hw) as (a & rest & z & -> & Ha & Hl & Hz).
  cbn [main_loop]. unfold main_pass. cbv zeta.
  rewrite (strip_core ws1 ws2 rest a z H1 H2 Ha Hl Hz).
  assert (E : existsb (String.eqb (lower (String a rest)))
                ["quit"; "exit"; "q"] = true).
  { apply existsb_exists. exists (lower (String a rest)).
    split; [exact Hw | apply String.eqb_refl]. }
  now rewrite E.
Qed.

Lemma quit_word_ends_loop_witness :
  main_loop None "" initialize_game [("  QuIt ", "rock"); ("rock", "paper")]
  = (initialize_game, [], UserQuit).
Proof.
  apply (quit_word_ends_loop None "" initialize_game "  " "QuIt" " " "rock"
           [("rock", "paper")]).
  - simpl; tauto.
  - reflexivity.
  - reflexivity.
Defined.

(** X24. A client whose every call fails cannot be told from no client at
    all: over any script the loop reaches the same state, prints the
    same match summaries and ends the same way as in mock mode. *)
Theorem failing_client_is_mock_mode (client : option Client)
    (system_prompt : string) (script : list (string * string))
    (gs : GameState.t) :
  falls_back client ->
  main_loop client system_prompt gs script
  = main_loop None system_prompt gs script.
Proof.
  intros Hfb. revert gs.
  induction script as [|[line ai] script IH]; intros gs; cbn [main_loop];
    [reflexivity|].
  rewrite (main_pass_fallback client _ _ _ _ Hfb).
  destruct (main_pass None _ _ _ _) as [| |gs1|gs1 d summary];
    try reflexivity; [apply IH | now rewrite IH].
Qed.

Lemma failing_client_is_mock_mode_witness :
  main_loop (Some (fun _ _ => ApiFailed)) "" initialize_game
    [("rock", "paper"); ("bomb", "rock")]
  = main_loop None "" initialize_game [("rock", "paper"); ("bomb", "rock")].
Proof.
  apply failing_client_is_mock_mode. intros sp ctx. reflexivity.
Defined.

(** X25. In fallback mode any three judged lines make one match, whether
    their moves were accepted or not: from a fresh game state the loop is
    back at a fresh game state after the third, and has printed exactly
    one summary, whose three counters add up to 3. *)
Theorem three_lines_one_match (client : option Client)
    (system_prompt : string) (l1 l2 l3 a1 a2 a3 : string) :
  falls_back client ->
  forwarded (strip l1) -> forwarded (strip l2) -> forwarded (strip l3) ->
  exists s,
    main_loop client system_prompt initialize_game
      [(l1, a1); (l2, a2); (l3, a3)]
    = (initialize_game, [s], MoreInput) /\
    (MatchSummary.user_wins s + MatchSummary.bot_wins s
     + MatchSummary.draws s = 3)%Z.
Proof.
  intros Hfb F1 F2 F3.
  set (gs0 := initialize_game).
  set (d1 := mock_judge_response system_prompt
               (build_context gs0 (strip l1) (Some a1))).
  set (gs1 := bump_round (commit gs0 d1)).
  set (d2 := mock_judge_response system_prompt
               (build_context gs1 (strip l2) (Some a2))).
  set (gs2 := bump_round (commit gs1 d2)).
  set (d3 := mock_judge_response system_prompt
               (build_context gs2 (strip l3) (Some a3))).
  assert (P1 : main_pass client system_prompt gs0 l1 a1 = Played gs1 d1 None).
  { rewrite (main_pass_forwarded _ _ _ _ _ F1),
      (play_round_fallback _ _ _ _ _ Hfb).
    cbv beta iota zeta. now rewrite print_mock_completes. }
  assert (P2 : main_pass client system_prompt gs1 l2 a2 = Played gs2 d2 None).
  { rewrite (main_pass_forwarded _ _ _ _ _ F2),
      (play_round_fallback _ _ _ _ _ Hfb).
    cbv beta iota zeta. now rewrite print_mock_completes. }
  assert (Hnf : null_free [d1; d2; d3]).
  { intros rd [<-|[<-|[<-|[]]]]; apply mock_not_null. }
  destruct (tally_null_free _ Hnf) as [s Hs].
  assert (P3 : main_pass client system_prompt gs2 l3 a3
               = Played initialize_game d3 (Some s)).
  { rewrite (main_pass_forwarded _ _ _ _ _ F3),
      (play_round_fallback _ _ _ _ _ Hfb).
    cbv beta iota zeta. rewrite print_mock_completes.
    match goal with
    | |- context [tally ?l] => change l with [d1; d2; d3]
    end.
    match goal with
    | |- context [Nat.eqb ?n 0] => change (Nat.eqb n 0) with true
    end.
    now rewrite Hs. }
  exists s. cbn [main_loop]. rewrite P1, P2, P3. split; [reflexivity|].
  apply tally_sum in Hs. cbn [List.length] in Hs. lia.
Qed.

Lemma three_lines_one_match_witness :
  exists s,
    main_loop None "" initialize_game
      [("what?", "rock"); ("pass", "bomb"); ("hmm", "paper")]
    = (initialize_game, [s], MoreInput) /\
    (MatchSummary.user_wins s + MatchSummary.bot_wins s
     + MatchSummary.draws s = 3)%Z.
Proof.
  apply three_lines_one_match.
  - exact I.
  - split; [reflexivity | discriminate].
  - split; [reflexivity | discriminate].
  - split; [reflexivity | discriminate].
Defined.
